(** * Five-Dot Lines: the legality and scoring engine of [src/App.js]

    A shallow embedding of the board, the move evaluator
    ([linesCreatedIfPlaced]), the enumerators ([findAnyLegalMove],
    [getAllLegalMoves]), the seeding ([seedInitialCross]) and the click
    handler ([handleCellClick]) of the React component, followed by the
    properties of the design document that are stated about them. *)

From Stdlib Require Import ZArith Lia List String Ascii DecimalString.
From Stdlib Require Import Sorted DecimalPos DecimalZ.
From stdpp Require Import base tactics option list list_numbers strings gmap.

Local Open Scope Z_scope.

(** ** JavaScript values held by a board cell

    A cell of the board holds the number 0 or 1.  Reading past the end of
    a row gives [undefined]; so does reading a slot that an out-of-range
    store left empty. *)

Inductive jsval : Type :=
| JUndefined
| JNum (n : Z).

(** [v === n] for a number literal [n]. *)
Definition strictEq (v : jsval) (n : Z) : bool :=
  match v with
  | JNum m => m =? n
  | JUndefined => false
  end.

(** [v !== n]. *)
Definition strictNe (v : jsval) (n : Z) : bool := negb (strictEq v n).

(** ** How a call completes

    [TypeError] is what reading a property of [undefined] raises
    ([board[y][x]] when there is no row [y]); [Diverge] is a loop that
    has not finished within the fuel of the model. *)

Inductive outcome (A : Type) : Type :=
| Ret (a : A)
| TypeError
| Diverge.

Arguments Ret {A} a.
Arguments TypeError {A}.
Arguments Diverge {A}.

#[global] Instance outcome_ret : MRet outcome := fun A a => Ret a.

#[global] Instance outcome_bind : MBind outcome := fun A B f m =>
  match m with
  | Ret a => f a
  | TypeError => TypeError
  | Diverge => Diverge
  end.

(** ** Board and visuals *)

Definition N : Z := 21.
Definition CENTER : Z := N / 2.

Abbreviation Row := (list jsval).
Abbreviation Board := (list Row).

(** [arr[i]] for an integer [i]: [None] stands for [undefined]. *)
Definition elemAt {A : Type} (l : list A) (i : Z) : option A :=
  if 0 <=? i then l !! Z.to_nat i else None.

(** [b.map((row) => row.slice())]: a fresh copy with the same contents. *)
Definition clone (b : Board) : Board := map (fun row : Row => row) b.

Definition makeEmptyBoard : Board :=
  replicate (Z.to_nat N) (replicate (Z.to_nat N) (JNum 0)).

Definition inside (x y : Z) : bool :=
  (0 <=? x) && (x <? N) && (0 <=? y) && (y <? N).

(** [b[y][x]]. *)
Definition getCell (b : Board) (x y : Z) : outcome jsval :=
  match elemAt b y with
  | None => TypeError
  | Some row => Ret (default JUndefined (elemAt row x))
  end.

(** [row[x] = v].  Inside the row the slot is overwritten; past its end
    JavaScript grows the array and leaves the slots in between empty.  A
    negative [x] names a property that is not an element: the elements
    stay as they are (no store of this program gets there, each one
    follows [inside(x, y)] or a read of 0 at the same place). *)
Definition storeAt (row : Row) (x : Z) (v : jsval) : Row :=
  if x <? 0 then row
  else if x <? Z.of_nat (length row) then <[Z.to_nat x := v]> row
  else row ++ replicate (Z.to_nat x - length row)%nat JUndefined ++ [v].

(** [b[y][x] = v]. *)
Definition setCell (b : Board) (x y : Z) (v : Z) : outcome Board :=
  match elemAt b y with
  | None => TypeError
  | Some row => Ret (<[Z.to_nat y := storeAt row x (JNum v)]> b)
  end.

(** ** Scored segments *)

Record Cell : Type := mkCell { cell_x : Z; cell_y : Z }.

Record Segment : Type := mkSegment {
  x1 : Z; y1 : Z; x2 : Z; y2 : Z;
  axisId : Z;
  cells : list Cell
}.

(** What [linesCreatedIfPlaced] returns: [{ count, segs }]. *)
Record Created : Type := mkCreated { count : Z; segs : list Segment }.

(** Axes (dx, dy). *)
Definition DIRS : list (Z * Z) := [(1, 0); (0, 1); (1, 1); (1, -1)].

(** ** The store the evaluator works on

    [linesCreatedIfPlaced(board, x, y, existingSegments)] receives
    references to the caller's board and ledger; it writes to the board
    in place.  A computation takes the store and gives the store it
    leaves behind, the board accesses it made (in order) and how it
    completed. *)

Record Store : Type := mkStore { st_board : Board; st_ledger : list Segment }.

Inductive access : Type :=
| Rd (x y : Z)
| Wr (x y : Z) (v : Z).

Record Run (A : Type) : Type := mkRun {
  final : Store;
  trace : list access;
  result : outcome A
}.

Arguments mkRun {A} final trace result.
Arguments final {A} r.
Arguments trace {A} r.
Arguments result {A} r.

Definition M (A : Type) : Type := Store -> Run A.

#[global] Instance M_ret : MRet M := fun A a st => mkRun st [] (Ret a).

#[global] Instance M_bind : MBind M := fun A B f m st =>
  let r := m st in
  match result r with
  | Ret a =>
      let r' := f a (final r) in
      mkRun (final r') (trace r ++ trace r') (result r')
  | TypeError => mkRun (final r) (trace r) TypeError
  | Diverge => mkRun (final r) (trace r) Diverge
  end.

Definition readCell (x y : Z) : M jsval := fun st =>
  mkRun st [Rd x y] (getCell (st_board st) x y).

Definition writeCell (x y v : Z) : M unit := fun st =>
  match setCell (st_board st) x y v with
  | Ret b' => mkRun (mkStore b' (st_ledger st)) [Wr x y v] (Ret tt)
  | TypeError => mkRun st [Wr x y v] TypeError
  | Diverge => mkRun st [Wr x y v] Diverge
  end.

Definition readLedger : M (list Segment) := fun st =>
  mkRun st [] (Ret (st_ledger st)).

Definition diverge {A : Type} : M A := fun st => mkRun st [] Diverge.

(** ** Overlap check and de-duplication *)

Definition sameCell (a b : Cell) : bool :=
  (cell_x a =? cell_x b) && (cell_y a =? cell_y b).

(** The two inner loops of [overlapsExisting]: some cell of [cand] is a
    cell of [ex]. *)
Definition sharesCell (ex cand : Segment) : bool :=
  existsb (fun c => existsb (fun ec => sameCell ec c) (cells ex)) (cells cand).

Definition overlapsExisting (existingSegments : list Segment) (cand : Segment) : bool :=
  existsb (fun ex => (axisId ex =? axisId cand) && sharesCell ex cand)
          existingSegments.

(** A number inside a template literal. *)
Definition string_of_Z (z : Z) : string := NilZero.string_of_int (Z.to_int z).

(** [`${s.axisId}:${s.x1},${s.y1}->${s.x2},${s.y2}`]. *)
Definition key (s : Segment) : string :=
  string_of_Z (axisId s) +:+ ":" +:+ string_of_Z (x1 s) +:+ "," +:+
  string_of_Z (y1 s) +:+ "->" +:+ string_of_Z (x2 s) +:+ "," +:+
  string_of_Z (y2 s).

(** [pushIfUnique]: [segs] is the local array of the call, given and
    returned. *)
Definition pushIfUnique (existingSegments segs : list Segment) (cand : Segment)
  : list Segment :=
  if overlapsExisting existingSegments cand then segs
  else if existsb (fun s => String.eqb (key s) (key cand)) segs then segs
  else segs ++ [cand].

(** ** Run counting

    Both [while] loops of the axis callback: walk from [(rx, ry)] by
    [(sx, sy)] while the cell is on the board and holds 1, counting the
    cells passed.  The left loop walks by [(-dx, -dy)], the right one by
    [(dx, dy)]. *)

Fixpoint scan (fuel : nat) (rx ry sx sy : Z) (n : Z) : M Z :=
  match fuel with
  | O => diverge
  | S fuel' =>
      if inside rx ry then
        v ← readCell rx ry;
        if strictEq v 1 then scan fuel' (rx + sx) (ry + sy) sx sy (n + 1)
        else mret n
      else mret n
  end.

(** A run walked from a cell of the board has fewer than [N] cells, so
    the loop test is evaluated at most [N] times. *)
Definition scanFuel : nat := Z.to_nat N.

(** [Array.from({ length: 5 }, (_, k) => ({ x: x1 + dx * k, y: y1 + dy * k }))]. *)
Definition windowCells (px py dx dy : Z) : list Cell :=
  map (fun k => mkCell (px + dx * k) (py + dy * k)) (seqZ 0 5).

(** The candidate that takes [takeLeft] cells before [(x, y)] and
    [takeRight] after it. *)
Definition window (x y dx dy axis takeLeft takeRight : Z) : Segment :=
  mkSegment (x - dx * takeLeft) (y - dy * takeLeft)
            (x + dx * takeRight) (y + dy * takeRight)
            axis
            (windowCells (x - dx * takeLeft) (y - dy * takeLeft) dx dy).

Definition leftHeavy (x y dx dy axis l : Z) : Segment :=
  let takeLeftA := Z.min 4 l in
  let takeRightA := 4 - takeLeftA in
  window x y dx dy axis takeLeftA takeRightA.

Definition rightHeavy (x y dx dy axis r : Z) : Segment :=
  let takeRightB := Z.min 4 r in
  let takeLeftB := 4 - takeRightB in
  window x y dx dy axis takeLeftB takeRightB.

(** What one axis adds to [segs] once its two runs are counted. *)
Definition axisWindows (existingSegments segs : list Segment)
    (x y dx dy axis l r : Z) : list Segment :=
  let total := l + 1 + r in
  if 5 <=? total then
    let segsA :=
      if 4 - Z.min 4 l <=? r
      then pushIfUnique existingSegments segs (leftHeavy x y dx dy axis l)
      else segs in
    if 4 - Z.min 4 r <=? l
    then pushIfUnique existingSegments segsA (rightHeavy x y dx dy axis r)
    else segsA
  else segs.

(** The callback of [DIRS.forEach(([dx, dy], axisId) => ...)]. *)
Definition axisStep (existingSegments : list Segment) (x y : Z)
    (d : Z * Z) (axis : Z) (segs : list Segment) : M (list Segment) :=
  let '(dx, dy) := d in
  l ← scan scanFuel (x - dx) (y - dy) (- dx) (- dy) 0;
  r ← scan scanFuel (x + dx) (y + dy) dx dy 0;
  mret (axisWindows existingSegments segs x y dx dy axis l r).

Fixpoint forEachAxis (f : Z * Z -> Z -> list Segment -> M (list Segment))
    (dirs : list (Z * Z)) (axis : Z) (segs : list Segment) : M (list Segment) :=
  match dirs with
  | [] => mret segs
  | d :: rest => segs' ← f d axis segs; forEachAxis f rest (axis + 1) segs'
  end.

(** ** The move evaluator *)

Definition linesCreatedIfPlaced (x y : Z) : M Created :=
  if negb (inside x y) then mret (mkCreated 0 [])
  else
    v ← readCell x y;
    if strictNe v 0 then mret (mkCreated 0 [])
    else
      _ ← writeCell x y 1;
      existingSegments ← readLedger;
      segs ← forEachAxis (axisStep existingSegments x y) DIRS 0 [];
      _ ← writeCell x y 0;
      mret (mkCreated (Z.of_nat (length segs)) segs).

(** ** Enumerators

    The two nested [for] loops run over the rows [0..N-1] and, in each,
    over the columns [0..N-1]. *)

Fixpoint findInRow (y : Z) (xs : list Z) : M bool :=
  match xs with
  | [] => mret false
  | x :: xs' =>
      v ← readCell x y;
      if strictNe v 0 then findInRow y xs'
      else
        r ← linesCreatedIfPlaced x y;
        if 0 <? count r then mret true else findInRow y xs'
  end.

Fixpoint findInRows (ys : list Z) : M bool :=
  match ys with
  | [] => mret false
  | y :: ys' =>
      found ← findInRow y (seqZ 0 N);
      if found : bool then mret true else findInRows ys'
  end.

Definition findAnyLegalMove : M bool := findInRows (seqZ 0 N).

(** An entry of the list [getAllLegalMoves] builds: [{ x, y, count }]. *)
Record LegalMove : Type := mkLegalMove { mv_x : Z; mv_y : Z; mv_count : Z }.

Fixpoint collectInRow (yy : Z) (xs : list Z) (out : list LegalMove)
  : M (list LegalMove) :=
  match xs with
  | [] => mret out
  | xx :: xs' =>
      v ← readCell xx yy;
      if strictNe v 0 then collectInRow yy xs' out
      else
        r ← linesCreatedIfPlaced xx yy;
        collectInRow yy xs'
          (if 0 <? count r then out ++ [mkLegalMove xx yy (count r)] else out)
  end.

Fixpoint collectInRows (ys : list Z) (out : list LegalMove)
  : M (list LegalMove) :=
  match ys with
  | [] => mret out
  | yy :: ys' =>
      out' ← collectInRow yy (seqZ 0 N) out;
      collectInRows ys' out'
  end.

Definition getAllLegalMoves : M (list LegalMove) := collectInRows (seqZ 0 N) [].

(** ** Seeding

    The body of [seedInitialCross] with its constant [length] as a
    parameter; [seedInitialCross] is the instance at 8. *)

(** [if (inside(x, y)) b[y][x] = 1]. *)
Definition seedCell (b : Board) (x y : Z) : outcome Board :=
  if inside x y then setCell b x y 1 else Ret b.

Fixpoint seedRow (b : Board) (ry : Z) (dxs : list Z) : outcome Board :=
  match dxs with
  | [] => Ret b
  | dx :: dxs' => b' ← seedCell b (CENTER + dx) ry; seedRow b' ry dxs'
  end.

Fixpoint seedColumn (b : Board) (cx : Z) (dys : list Z) : outcome Board :=
  match dys with
  | [] => Ret b
  | dy :: dys' => b' ← seedCell b cx (CENTER + dy); seedColumn b' cx dys'
  end.

Definition seedCross (length : Z) (board : Board) : outcome Board :=
  let b := clone board in
  let halfLeft := (length - 1) / 2 in
  let halfRight := length - 1 - halfLeft in
  let steps := seqZ (- halfLeft) (halfRight + halfLeft + 1) in
  b ← seedRow b CENTER steps;
  b ← seedRow b (CENTER + 1) steps;
  b ← seedColumn b CENTER steps;
  seedColumn b (CENTER + 1) steps.

Definition seedInitialCross (board : Board) : outcome Board := seedCross 8 board.

(** ** The component state and its handlers *)

Inductive Message : Type :=
| MsgPlace              (* Place a dot that completes a five-dot line. *)
| MsgInvalid            (* Invalid move: ... *)
| MsgNice               (* Nice! +1 line. *)
| MsgGreat (n : Z).     (* Great! +n lines. *)

(** The state hooks the engine reads and writes.  [effectDep] is the
    value of [legalExists] the [useEffect] hook last ran with ([None]
    before the first render). *)
Record State : Type := mkState {
  board : Board;
  score : Z;
  moves : Z;
  gameOver : bool;
  message : Message;
  segments : list Segment;
  effectDep : option bool
}.

Definition storeOf (s : State) : Store := mkStore (board s) (segments s).

(** The board and the ledger of the state are the objects the evaluator
    was handed: what it left in them is what the state holds. *)
Definition withStore (s : State) (st : Store) : State :=
  mkState (st_board st) (score s) (moves s) (gameOver s) (message s)
          (st_ledger st) (effectDep s).

Definition setMessage (m : Message) (s : State) : State :=
  mkState (board s) (score s) (moves s) (gameOver s) m (segments s) (effectDep s).

Definition handleCellClick (x y : Z) (s : State) : State * outcome unit :=
  if gameOver s then (s, Ret tt)
  else
    match getCell (board s) x y with
    | TypeError => (s, TypeError)
    | Diverge => (s, Diverge)
    | Ret v =>
        if strictNe v 0 then (s, Ret tt)
        else
          let r := linesCreatedIfPlaced x y (storeOf s) in
          let s1 := withStore s (final r) in
          match result r with
          | TypeError => (s1, TypeError)
          | Diverge => (s1, Diverge)
          | Ret created =>
              if count created <=? 0 then (setMessage MsgInvalid s1, Ret tt)
              else
                match setCell (clone (board s1)) x y 1 with
                | TypeError => (s1, TypeError)
                | Diverge => (s1, Diverge)
                | Ret next =>
                    (mkState next
                             (score s1 + count created)
                             (moves s1 + 1)
                             (gameOver s1)
                             (if count created =? 1 then MsgNice
                              else MsgGreat (count created))
                             (segments s1 ++ segs created)
                             (effectDep s1),
                     Ret tt)
                end
          end
    end.

(** [useMemo(() => findAnyLegalMove(board, segments))] followed by
    [useEffect(() => { if (!legalExists) setGameOver(true); }, [legalExists])]:
    the effect runs after the first render and whenever [legalExists]
    differs from the value it last ran with. *)
Definition renderEffect (s : State) : State * outcome unit :=
  let r := findAnyLegalMove (storeOf s) in
  let s1 := withStore s (final r) in
  match result r with
  | TypeError => (s1, TypeError)
  | Diverge => (s1, Diverge)
  | Ret legalExists =>
      if bool_decide (effectDep s1 = Some legalExists) then (s1, Ret tt)
      else
        (mkState (board s1) (score s1) (moves s1)
                 (if legalExists then gameOver s1 else true)
                 (message s1) (segments s1) (Some legalExists),
         Ret tt)
  end.

(** The values the state hooks start with, and [reset] returns to. *)
Definition freshState (dep : option bool) : outcome State :=
  b ← seedInitialCross makeEmptyBoard;
  mret (mkState b 0 0 false MsgPlace [] dep).

Definition reset (s : State) : State * outcome unit :=
  match freshState (effectDep s) with
  | Ret s' => (s', Ret tt)
  | TypeError => (s, TypeError)
  | Diverge => (s, Diverge)
  end.

(** ** Games

    What the player does, each followed by the render it causes.  A game
    also remembers, for every click since the last reset, the windows
    that click added to the ledger (none for a rejected click). *)

Inductive Event : Type :=
| Click (x y : Z)
| Reset.

Definition handle (e : Event) (s : State) : State * outcome unit :=
  match e with
  | Click x y => handleCellClick x y s
  | Reset => reset s
  end.

Definition dispatch (e : Event) (s : State) : State :=
  fst (renderEffect (fst (handle e s))).

Record Game : Type := mkGame { state : State; batches : list (list Segment) }.

Definition step (g : Game) (e : Event) : Game :=
  let s' := dispatch e (state g) in
  match e with
  | Click _ _ =>
      mkGame s' (batches g ++ [drop (length (segments (state g))) (segments s')])
  | Reset => mkGame s' []
  end.

Definition mount : State :=
  match freshState None with
  | Ret s => fst (renderEffect s)
  | _ => mkState [] 0 0 false MsgPlace [] None
  end.

Definition newGame : Game := mkGame mount [].

Definition play (evs : list Event) : Game := fold_left step evs newGame.

(** * Vocabulary of the properties *)

(** A board is a grid of [N] rows of [N] slots. *)
Definition is_board (b : Board) : Prop :=
  length b = Z.to_nat N /\ Forall (fun row : Row => length row = Z.to_nat N) b.

(** [evals m st st' a]: from [st] the computation [m] completes normally
    with value [a] and leaves [st']. *)
Definition evals {A : Type} (m : M A) (st st' : Store) (a : A) : Prop :=
  final (m st) = st' /\ result (m st) = Ret a.

(** The store after the temporary mark [board[y][x] = 1]. *)
Definition probed (st : Store) (x y : Z) : Store := final (writeCell x y 1 st).

(** The rows [0..N-1] exist: no read of a cell of the grid raises. *)
Definition has_rows (b : Board) : Prop := N <= Z.of_nat (length b).

(** The steps the loops take: one cell along an axis, either way. *)
Definition unit_step (sx sy : Z) : Prop :=
  -1 <= sx <= 1 /\ -1 <= sy <= 1 /\ (sx <> 0 \/ sy <> 0).

(** How many cells of the grid lie ahead of [(rx, ry)], itself included. *)
Definition remaining (rx ry sx sy : Z) : Z :=
  if sx =? 1 then N - rx
  else if sx =? -1 then rx + 1
  else if sy =? 1 then N - ry
  else ry + 1.

(** The count a loop reaches from [(rx, ry)] (0 where it does not end). *)
Definition runLen (st : Store) (rx ry sx sy : Z) : Z :=
  match result (scan scanFuel rx ry sx sy 0 st) with
  | Ret k => k
  | _ => 0
  end.

(** The windows collected over the axes [dirs], numbered from [axis]:
    the fold of [forEachAxis] with the runs read off the store. *)
Fixpoint axesWindows (existingSegments : list Segment) (st : Store) (x y : Z)
    (dirs : list (Z * Z)) (axis : Z) (segs : list Segment) : list Segment :=
  match dirs with
  | [] => segs
  | (dx, dy) :: rest =>
      axesWindows existingSegments st x y rest (axis + 1)
        (axisWindows existingSegments segs x y dx dy axis
           (runLen st (x - dx) (y - dy) (- dx) (- dy))
           (runLen st (x + dx) (y + dy) dx dy))
  end.

(** An empty cell of the grid where a placement scores. *)
Definition legalAt (st : Store) (x y : Z) : Prop :=
  inside x y = true /\ getCell (st_board st) x y = Ret (JNum 0) /\
  exists c, result (linesCreatedIfPlaced x y st) = Ret c /\ 0 < count c.

(** [b[y][x] = 1] for each [(x, y)] of a list, as the self-tests fill
    their boards. *)
Definition occupy (b : Board) (cs : list (Z * Z)) : Board :=
  fold_left (fun b c => match setCell b (fst c) (snd c) 1 with
                        | Ret b' => b'
                        | _ => b
                        end) cs b.

(** Scenario A: four dots in a row, and the ledger already holds the
    horizontal window over (5,8)..(9,8). *)
Definition scenarioA_board : Board :=
  occupy makeEmptyBoard [(6, 8); (7, 8); (8, 8); (9, 8)].

Definition scenarioA_scored (a b c d : Z) : Segment :=
  mkSegment a b c d 0 (windowCells 5 8 1 0).

(** The component's state after a click on the empty cell [(x, y)] that
    created [c]. *)
Definition accepted (s : State) (x y : Z) (c : Created) (next : Board) : State :=
  mkState next (score s + count c) (moves s + 1) (gameOver s)
          (if count c =? 1 then MsgNice else MsgGreat (count c))
          (segments s ++ segs c) (effectDep s).

(** Two windows have no cell in common. *)
Definition disjoint_cells (w1 w2 : Segment) : Prop :=
  forall c, In c (cells w1) -> ~ In c (cells w2).

(** Windows of one axis that different clicks committed are disjoint. *)
Definition batches_disjoint (bs : list (list Segment)) : Prop :=
  forall i j b1 b2 w1 w2,
    i <> j -> bs !! i = Some b1 -> bs !! j = Some b2 ->
    In w1 b1 -> In w2 b2 -> axisId w1 = axisId w2 -> disjoint_cells w1 w2.

(** The windows one click committed all hold one cell (the placed one). *)
Definition batches_centred (bs : list (list Segment)) : Prop :=
  forall (i : nat) b, bs !! i = Some b ->
    exists x y, forall w, In w b -> In (mkCell x y) (cells w).

Definition game_ok (g : Game) : Prop :=
  is_board (board (state g)) /\
  segments (state g) = concat (batches g) /\
  batches_disjoint (batches g) /\
  batches_centred (batches g).

(** Any two entries of the ledger that lie on one axis are disjoint. *)
Definition ledger_disjoint (s : State) : Prop :=
  forall (i j : nat) w1 w2,
    i <> j -> segments s !! i = Some w1 -> segments s !! j = Some w2 ->
    axisId w1 = axisId w2 -> disjoint_cells w1 w2.

(** Four legal clicks from the seeded cross; the last one has four dots
    on its left and one on its right in row 12. *)
Definition double_score_game : list Event :=
  [Click 9 12; Click 14 12; Click 12 12; Click 13 12].

(** A game played from the seeded cross until no legal move is left. *)
Definition finished_game : list Event :=
  map (fun p => Click (fst p) (snd p))
    [(6, 11); (7, 9); (12, 12); (11, 6); (9, 7); (7, 12); (7, 8); (6, 10);
     (10, 15); (10, 6); (9, 14); (12, 9); (8, 8); (12, 8); (15, 11); (8, 12);
     (8, 9); (15, 10); (9, 8); (9, 13); (8, 7); (12, 7); (13, 9); (11, 15);
     (9, 9); (8, 13); (9, 12); (7, 13)].

Definition clicks (cs : list (Z * Z)) : list Event :=
  map (fun p => Click (fst p) (snd p)) cs.

(** Scenario B: four dots on each side of the empty cell (10,8). *)
Definition scenarioB_board : Board :=
  occupy makeEmptyBoard
    [(6, 8); (7, 8); (8, 8); (9, 8); (11, 8); (12, 8); (13, 8); (14, 8)].

(** The windows of one axis: what its callback adds to an empty [segs]. *)
Definition axisOf (existingSegments : list Segment) (st : Store) (x y : Z)
    (axis : Z) (d : Z * Z) : list Segment :=
  axisWindows existingSegments [] x y (fst d) (snd d) axis
    (runLen st (x - fst d) (y - snd d) (- fst d) (- snd d))
    (runLen st (x + fst d) (y + snd d) (fst d) (snd d)).

(** The entries of [segs] that lie on [axis]. *)
Definition onAxis (axis : Z) (segs : list Segment) : list Segment :=
  List.filter (fun w => axisId w =? axis) segs.

(** C3 as it is stated: whenever the two runs are equal and total >= 5
    the two candidates are one window, and the axis yields exactly one. *)
Definition equal_runs_give_one_window : Prop :=
  forall st x y axis dx dy l r c,
    is_board (st_board st) ->
    inside x y = true -> getCell (st_board st) x y = Ret (JNum 0) ->
    elemAt DIRS axis = Some (dx, dy) ->
    result (scan scanFuel (x - dx) (y - dy) (- dx) (- dy) 0 (probed st x y)) = Ret l ->
    result (scan scanFuel (x + dx) (y + dy) dx dy 0 (probed st x y)) = Ret r ->
    l = r -> 5 <= l + 1 + r ->
    result (linesCreatedIfPlaced x y st) = Ret c ->
    leftHeavy x y dx dy axis l = rightHeavy x y dx dy axis r /\
    length (onAxis axis (segs c)) = 1%nat.

(** The grid whose cell [(x, y)] holds the number [f x y]. *)
Definition gridOf (f : Z -> Z -> Z) : Board :=
  map (fun y => map (fun x => JNum (f x y)) (seqZ 0 N)) (seqZ 0 N).

(** [(cx, cy)] is one of the eight cells at distance 1 to 4 from [(x, y)]
    along [(dx, dy)], on either side. *)
Definition onRun (x y dx dy cx cy : Z) : bool :=
  existsb (fun k => (cx =? x + dx * k) && (cy =? y + dy * k))
          [-4; -3; -2; -1; 1; 2; 3; 4].

(** Scenario E at the cell [(x, y)] of the axis numbered [axis]: the
    evaluation on the board that holds the nine-long run and nothing
    else, with an empty ledger. *)
Definition nineRunResult (axis x y : Z) : option (outcome Created * outcome Created) :=
  match elemAt DIRS axis with
  | Some (dx, dy) =>
      if inside (x - 4 * dx) (y - 4 * dy) && inside (x + 4 * dx) (y + 4 * dy)
      then Some
        (result (linesCreatedIfPlaced x y
           (mkStore (gridOf (fun cx cy => if onRun x y dx dy cx cy then 1 else 0)) [])),
         Ret (mkCreated 2 [leftHeavy x y dx dy axis 4; rightHeavy x y dx dy axis 4]))
      else None
  | None => None
  end.

(** The cells of the seeded cross for a line of [length] dots: the rows
    [CENTER] and [CENTER + 1] over the columns [CENTER - left .. CENTER +
    right], and the columns [CENTER] and [CENTER + 1] over the same rows. *)
Definition inCross (length x y : Z) : bool :=
  let halfLeft := (length - 1) / 2 in
  let halfRight := length - 1 - halfLeft in
  ((y =? CENTER) || (y =? CENTER + 1))
    && ((CENTER - halfLeft <=? x) && (x <=? CENTER + halfRight))
  || ((x =? CENTER) || (x =? CENTER + 1))
    && ((CENTER - halfLeft <=? y) && (y <=? CENTER + halfRight)).

(** The same for the line of 8 on the board of 21: centre 10, three
    cells before it and four after. *)
Definition crossCell (x y : Z) : bool :=
  ((y =? 10) || (y =? 11)) && ((7 <=? x) && (x <=? 14))
  || ((x =? 10) || (x =? 11)) && ((7 <=? y) && (y <=? 14)).

(** The boards of the component's self-tests [r4], [r5] and [r6]. *)
Definition selftest_d : Board :=
  occupy makeEmptyBoard [(10, 10); (11, 11); (12, 12); (13, 13)].

Definition selftest_t : Board :=
  occupy makeEmptyBoard [(5, 8); (6, 8); (7, 8); (8, 8); (9, 8)].

Definition selftest_s : Board :=
  occupy makeEmptyBoard
    [(6, 10); (7, 10); (8, 10); (9, 10); (11, 10); (12, 10); (13, 10); (14, 10)].

(** The count an evaluation returns ([-1] if it does not return). *)
Definition countOf (r : Run Created) : Z :=
  match result r with
  | Ret c => count c
  | _ => -1
  end.

(** Equality of results and the shape of a board are decidable, so that
    closed instances can be settled by evaluation. *)

#[global] Instance jsval_eq_dec : EqDecision jsval.
Proof. solve_decision. Defined.

#[global] Instance Cell_eq_dec : EqDecision Cell.
Proof. solve_decision. Defined.

#[global] Instance Segment_eq_dec : EqDecision Segment.
Proof. solve_decision. Defined.

#[global] Instance Created_eq_dec : EqDecision Created.
Proof. solve_decision. Defined.

#[global] Instance outcome_eq_dec {A} `{EqDecision A} : EqDecision (outcome A).
Proof. solve_decision. Defined.

#[global] Instance is_board_dec b : Decision (is_board b).
Proof. unfold is_board. apply _. Defined.

(** * Further vocabulary *)

(** What an access of one evaluation at [(x, y)] may be: a read of a cell
    of the grid, or a write to the placed cell. *)
Definition probe_access (x y : Z) (a : access) : Prop :=
  match a with
  | Rd rx ry => inside rx ry = true
  | Wr wx wy _ => wx = x /\ wy = y
  end.

(** The number of cells of a board that hold a dot. *)
Definition occupied (b : Board) : nat :=
  length (List.filter (fun v => strictEq v 1) (concat b)).

(** The game-over flag and the effect's dependency agree with what
    [findAnyLegalMove] answers on the state's board and ledger. *)
Definition synced (s : State) : Prop :=
  is_board (board s) /\
  exists found,
    result (findAnyLegalMove (storeOf s)) = Ret found /\
    effectDep s = Some found /\ gameOver s = negb found.

(** What holds of the state of every game: the flags are in step with the
    board, the score counts the ledger, every move scored between one and
    eight, each move added one dot to the 28 of the seed, and the ledger
    windows lie on dots. *)
Definition reached (s : State) : Prop :=
  synced s /\
  score s = Z.of_nat (length (segments s)) /\
  (0 <= moves s /\ moves s <= score s <= 8 * moves s) /\
  Z.of_nat (occupied (board s)) = 28 + moves s /\
  (forall w cl, In w (segments s) -> In cl (cells w) ->
     getCell (board s) (cell_x cl) (cell_y cl) = Ret (JNum 1)).

(** ** The hover preview *)

(** The value of the [hover] hook: [{ x, y, lines }]. *)
Record Hover : Type := mkHover { hv_x : Z; hv_y : Z; hv_lines : Z }.

(** [onHover]: the state it leaves (the evaluator is handed the board
    and the ledger of the state) and the value it passes to [setHover].
    [board[y][x] !== 0] is evaluated before [gameOver]. *)
Definition onHover (x y : Z) (s : State) : State * outcome Hover :=
  match getCell (board s) x y with
  | TypeError => (s, TypeError)
  | Diverge => (s, Diverge)
  | Ret v =>
      if strictNe v 0 || gameOver s then (s, Ret (mkHover x y 0))
      else
        let r := linesCreatedIfPlaced x y (storeOf s) in
        let s1 := withStore s (final r) in
        match result r with
        | TypeError => (s1, TypeError)
        | Diverge => (s1, Diverge)
        | Ret created => (s1, Ret (mkHover x y (count created)))
        end
  end.

(** ** The list of legal moves *)

(** Row-major order of two entries of the list [getAllLegalMoves]
    returns: an earlier row, or the same row and an earlier column. *)
Definition before (a b : LegalMove) : Prop :=
  mv_y a < mv_y b \/ (mv_y a = mv_y b /\ mv_x a < mv_x b).

(** What a cell contributes to the list. *)
Definition listed (st : Store) (m : LegalMove) : Prop :=
  legalAt st (mv_x m) (mv_y m) /\
  exists c, result (linesCreatedIfPlaced (mv_x m) (mv_y m) st) = Ret c /\
            mv_count m = count c.

(** ** The one-time reveal *)

(** The hooks [revealUsed] and [revealedMoves]. *)
Record Reveal : Type := mkReveal {
  revealUsed : bool;
  revealedMoves : list LegalMove
}.

(** The two messages [revealOnce] can set. *)
Inductive Notice : Type :=
| Revealed (n : Z)        (* Revealed n legal spots. *)
| NothingToReveal.        (* No legal moves to reveal. *)

(** [revealOnce]: the state and the reveal hooks it leaves, and the
    message it passes to [setMessage] ([None] when it returns at its
    first line). *)
Definition revealOnce (s : State) (r : Reveal)
  : State * Reveal * outcome (option Notice) :=
  if revealUsed r || gameOver s then (s, r, Ret None)
  else
    let run := getAllLegalMoves (storeOf s) in
    let s1 := withStore s (final run) in
    match result run with
    | TypeError => (s1, r, TypeError)
    | Diverge => (s1, r, Diverge)
    | Ret moves =>
        (s1, mkReveal true moves,
         Ret (Some (if Z.of_nat (length moves) =? 0 then NothingToReveal
                    else Revealed (Z.of_nat (length moves)))))
    end.

(** ** What the component keeps in [localStorage]

    The component as it runs in a browser ([typeof window] is not
    ['undefined']), with a storage that only this component writes. *)

Abbreviation Storage := (gmap string string).

(** The numbers the high score can be: [NaN] or an integer.  ([-0] is
    [Int 0]: the component only compares and prints the value.) *)
Inductive jsnum : Type :=
| NaN
| Int (z : Z).

(** [a > b] on a number [a] that is an integer. *)
Definition gtNum (a : Z) (b : jsnum) : bool :=
  match b with
  | NaN => false
  | Int z => z <? a
  end.

(** The white space [parseInt] skips, among the characters below 128. *)
Definition isWhiteSpace (a : ascii) : bool :=
  match N_of_ascii a with
  | 9 | 10 | 11 | 12 | 13 | 32 => true
  | _ => false
  end%N.

Fixpoint trimStart (s : string) : string :=
  match s with
  | String a s' => if isWhiteSpace a then trimStart s' else s
  | EmptyString => EmptyString
  end.

(** The sign [parseInt] reads, and the rest of the string. *)
Definition signOf (s : string) : bool * string :=
  match s with
  | String "-" r => (true, r)
  | String "+" r => (false, r)
  | _ => (false, s)
  end.

(** The longest prefix of decimal digits. *)
Fixpoint digitPrefix (s : string) : Decimal.uint :=
  match s with
  | String a s' => default Decimal.Nil (uint_of_char a (Some (digitPrefix s')))
  | EmptyString => Decimal.Nil
  end.

(** [parseInt(s, 10)].  The result is [None] where this model does not
    follow the function: on a string with a character above 127 (such
    characters can be white space) and on a value of [2 ^ 53] or more
    (a double rounds it). *)
Definition parseInt (s : string) : option jsnum :=
  if forallb (fun a => (N_of_ascii a <? 128)%N) (list_ascii_of_string s) then
    let (neg, r) := signOf (trimStart s) in
    match digitPrefix r with
    | Decimal.Nil => Some NaN
    | d =>
        let z := Z.of_uint d in
        if z <? 2 ^ 53 then Some (Int (if neg then - z else z)) else None
    end
  else None.

(** The hooks of the component: the game, the high score, the two
    switches, and the storage of the browser. *)
Record App : Type := mkApp {
  game : State;
  highScore : jsnum;
  dark : bool;
  muted : bool;
  localStorage : Storage
}.

(** [const s = localStorage.getItem('fdl_highscore');
     return s ? parseInt(s, 10) : 0;] *)
Definition initHighScore (ls : Storage) : option jsnum :=
  match ls !! "fdl_highscore"%string with
  | Some s => if String.eqb s "" then Some (Int 0) else parseInt s
  | None => Some (Int 0)
  end.

(** [localStorage.getItem(key) === '1'] *)
Definition initFlag (key : string) (ls : Storage) : bool :=
  bool_decide (ls !! key = Some "1"%string).

(** The effect on [[score, highScore]].  When it sets the high score it
    runs once more after the render that follows, and then does
    nothing. *)
Definition highScoreEffect (a : App) : App :=
  if gtNum (score (game a)) (highScore a) then
    mkApp (game a) (Int (score (game a))) (dark a) (muted a)
          (<["fdl_highscore"%string := string_of_Z (score (game a))]>
             (localStorage a))
  else a.

(** The effect on [[dark]]. *)
Definition darkEffect (a : App) : App :=
  mkApp (game a) (highScore a) (dark a) (muted a)
        (<["fdl_dark"%string := if dark a then "1"%string else "0"%string]>
           (localStorage a)).

(** The effect on [[muted]]. *)
Definition mutedEffect (a : App) : App :=
  mkApp (game a) (highScore a) (dark a) (muted a)
        (<["fdl_muted"%string := if muted a then "1"%string else "0"%string]>
           (localStorage a)).

(** The first render and the effects that follow it, in the order of
    the source. *)
Definition mountApp (ls : Storage) : option App :=
  h ← initHighScore ls;
  Some (mutedEffect (darkEffect (highScoreEffect
          (mkApp mount h (initFlag "fdl_dark" ls) (initFlag "fdl_muted" ls) ls)))).

(** What the player does to the component: an event of the game, or a
    press of one of the two switches; each with the effects whose
    dependencies it changes. *)
Inductive Action : Type :=
| Play (e : Event)
| ToggleDark
| ToggleMuted.

Definition act (a : App) (x : Action) : App :=
  match x with
  | Play e =>
      highScoreEffect
        (mkApp (dispatch e (game a)) (highScore a) (dark a) (muted a)
               (localStorage a))
  | ToggleDark =>
      darkEffect
        (mkApp (game a) (highScore a) (negb (dark a)) (muted a) (localStorage a))
  | ToggleMuted =>
      mutedEffect
        (mkApp (game a) (highScore a) (dark a) (negb (muted a)) (localStorage a))
  end.

(** A session: the page is loaded with the storage [ls], then the
    player acts. *)
Definition session (ls : Storage) (xs : list Action) : option App :=
  a ← mountApp ls; Some (fold_left act xs a).

(** What holds of the component once its effects have run: the game is
    one that can be reached, and the storage holds what the hooks
    hold. *)
Definition settled (a : App) : Prop :=
  reached (game a) /\
  initHighScore (localStorage a) = Some (highScore a) /\
  gtNum (score (game a)) (highScore a) = false /\
  localStorage a !! "fdl_dark"%string
  = Some (if dark a then "1"%string else "0"%string) /\
  localStorage a !! "fdl_muted"%string
  = Some (if muted a then "1"%string else "0"%string).

(** * Properties *)

(** A closed decidable proposition, settled by evaluating its decision. *)
Ltac by_evaluation := apply (bool_decide_unpack _); by vm_compute.

(** Membership in a range of columns, rows or offsets. *)
Ltac in_seqZ := apply list_elem_of_In, elem_of_seqZ; lia.

(** Facts about the shape of boards, for [auto with board]. *)
Create HintDb board.

(** ** Boards *)

Lemma inside_spec x y :
  inside x y = true <-> 0 <= x < N /\ 0 <= y < N.
Proof. unfold inside. rewrite !andb_true_iff. lia. Qed.

Lemma inside_false x y :
  inside x y = false <-> ~ (0 <= x < N /\ 0 <= y < N).
Proof. rewrite <- inside_spec. destruct (inside x y); split; congruence. Qed.

Lemma elemAt_Some {A} (l : list A) i a :
  elemAt l i = Some a <-> 0 <= i /\ l !! Z.to_nat i = Some a.
Proof.
  unfold elemAt. destruct (Z.leb_spec 0 i); split; try tauto; try lia.
  intros; discriminate.
Qed.

Lemma elemAt_bound {A} (l : list A) i a :
  elemAt l i = Some a -> 0 <= i < Z.of_nat (length l).
Proof.
  intros [Hi Hl]%elemAt_Some. apply lookup_lt_Some in Hl. lia.
Qed.

Lemma elemAt_is_Some {A} (l : list A) i :
  0 <= i < Z.of_nat (length l) -> exists a, elemAt l i = Some a.
Proof.
  intros Hi. destruct (lookup_lt_is_Some_2 l (Z.to_nat i)) as [a Ha]; [lia|].
  exists a. apply elemAt_Some. split; [lia | done].
Qed.

Lemma clone_id b : clone b = b.
Proof. unfold clone. apply map_id. Qed.

Lemma is_board_row b y :
  is_board b -> 0 <= y < N ->
  exists row, elemAt b y = Some row /\ length row = Z.to_nat N.
Proof.
  intros [Hlen Hrows] Hy.
  destruct (elemAt_is_Some b y) as [row Hrow]; [lia|].
  exists row. split; [done|].
  apply elemAt_Some in Hrow as [_ Hrow].
  rewrite Forall_lookup in Hrows. eauto.
Qed.

Lemma getCell_num_inv b x y n :
  getCell b x y = Ret (JNum n) ->
  exists row, elemAt b y = Some row /\ elemAt row x = Some (JNum n).
Proof.
  unfold getCell. destruct (elemAt b y) as [row|] eqn:Hrow; [|discriminate].
  destruct (elemAt row x) as [v|] eqn:Hv; simpl; intros [= ->]. eauto.
Qed.

Lemma is_board_num_inside b x y n :
  is_board b -> getCell b x y = Ret (JNum n) -> inside x y = true.
Proof.
  intros [Hlen Hrows] (row & Hrow & Hv)%getCell_num_inv.
  pose proof (elemAt_bound _ _ _ Hrow) as Hy.
  pose proof (elemAt_bound _ _ _ Hv) as Hx.
  apply elemAt_Some in Hrow as [_ Hrow].
  rewrite Forall_lookup in Hrows. specialize (Hrows _ _ Hrow).
  apply inside_spec. lia.
Qed.

(** A store into a slot that exists replaces it and nothing else. *)
Lemma setCell_present b x y v row w :
  elemAt b y = Some row -> elemAt row x = Some w ->
  setCell b x y v = Ret (<[Z.to_nat y := <[Z.to_nat x := JNum v]> row]> b).
Proof.
  intros Hrow Hw. unfold setCell, storeAt. rewrite Hrow.
  pose proof (elemAt_bound _ _ _ Hw) as Hx.
  destruct (Z.ltb_spec x 0); [lia|].
  destruct (Z.ltb_spec x (Z.of_nat (length row))); [done | lia].
Qed.

Lemma is_board_slot b x y :
  is_board b -> inside x y = true ->
  exists row w, elemAt b y = Some row /\ elemAt row x = Some w.
Proof.
  intros Hb [Hx Hy]%inside_spec.
  destruct (is_board_row b y Hb Hy) as (row & Hrow & Hlen).
  destruct (elemAt_is_Some row x) as [w Hw]; [lia | eauto].
Qed.

Lemma setCell_is_board b x y v b' :
  is_board b -> inside x y = true -> setCell b x y v = Ret b' -> is_board b'.
Proof.
  intros Hb Hin. destruct (is_board_slot b x y Hb Hin) as (row & w & Hrow & Hw).
  destruct Hb as [Hlen Hrows].
  rewrite (setCell_present _ _ _ _ _ _ Hrow Hw). intros [= <-].
  split; [by rewrite length_insert|].
  apply Forall_insert; [done|]. rewrite length_insert.
  apply elemAt_Some in Hrow as [_ Hrow].
  rewrite Forall_lookup in Hrows. eauto.
Qed.

(** Reading back after a store. *)
Lemma getCell_setCell b x y v b' x' y' :
  is_board b -> inside x y = true -> setCell b x y v = Ret b' ->
  getCell b' x' y' =
    if (x' =? x) && (y' =? y) then Ret (JNum v) else getCell b x' y'.
Proof.
  intros Hb Hin. destruct (is_board_slot b x y Hb Hin) as (row & w & Hrow & Hv).
  rewrite (setCell_present _ _ _ _ _ _ Hrow Hv). intros [= <-].
  pose proof (elemAt_bound _ _ _ Hrow) as Hy.
  pose proof (elemAt_bound _ _ _ Hv) as Hx.
  destruct (Z.eqb_spec y' y) as [->|Hne].
  - unfold getCell. apply elemAt_Some in Hrow as [_ Hrow].
    replace (elemAt (<[Z.to_nat y:=<[Z.to_nat x:=JNum v]> row]> b) y)
      with (Some (<[Z.to_nat x:=JNum v]> row)).
    2:{ symmetry. apply elemAt_Some. split; [lia|].
        apply list_lookup_insert_eq. lia. }
    replace (elemAt b y) with (Some row)
      by (symmetry; apply elemAt_Some; split; [lia | done]).
    destruct (Z.eqb_spec x' x) as [->|Hnx]; simpl.
    + replace (elemAt (<[Z.to_nat x:=JNum v]> row) x) with (Some (JNum v)); [done|].
      symmetry. apply elemAt_Some. split; [lia|].
      apply list_lookup_insert_eq. lia.
    + do 2 f_equal. unfold elemAt. destruct (0 <=? x') eqn:Hx'; [|done].
      apply list_lookup_insert_ne. lia.
  - rewrite andb_false_r. unfold getCell. f_equal.
    unfold elemAt. destruct (0 <=? y') eqn:Hy'; [|done].
    rewrite list_lookup_insert_ne by lia. done.
Qed.

(** The probe: marking an empty cell and clearing it again gives the
    board back. *)
Lemma probe_undo b x y :
  getCell b x y = Ret (JNum 0) ->
  exists b1, setCell b x y 1 = Ret b1 /\ setCell b1 x y 0 = Ret b /\
             length b1 = length b.
Proof.
  intros (row & Hrow & Hv)%getCell_num_inv.
  pose proof (elemAt_bound _ _ _ Hrow) as Hy.
  pose proof (elemAt_bound _ _ _ Hv) as Hx.
  eexists. split; [by eapply setCell_present|].
  split; [|by rewrite length_insert].
  erewrite setCell_present.
  - f_equal. rewrite list_insert_insert_eq, list_insert_insert_eq.
    apply elemAt_Some in Hrow as [_ Hrow], Hv as [_ Hv].
    by rewrite (list_insert_id row), (list_insert_id b).
  - apply elemAt_Some. split; [lia|]. apply list_lookup_insert_eq. lia.
  - apply elemAt_Some. split; [lia|]. apply list_lookup_insert_eq. lia.
Qed.

(** Where the rows are there, reading a cell of the grid does not raise. *)
Lemma is_board_has_rows b : is_board b -> has_rows b.
Proof. intros [Hlen _]. unfold has_rows. lia. Qed.

#[local] Hint Resolve is_board_has_rows : board.

Lemma has_rows_getCell b x y :
  has_rows b -> inside x y = true -> exists v, getCell b x y = Ret v.
Proof.
  intros Hb [_ Hy]%inside_spec. unfold has_rows in Hb.
  destruct (elemAt_is_Some b y) as [row Hrow]; [lia|].
  unfold getCell. rewrite Hrow. eauto.
Qed.

(** ** Running computations *)

Lemma evals_ret {A} (a : A) st : evals (mret a) st st a.
Proof. done. Qed.

Lemma evals_bind {A B} (m : M A) (f : A -> M B) st st1 st2 a b :
  evals m st st1 a -> evals (f a) st1 st2 b -> evals (m ≫= f) st st2 b.
Proof.
  intros [H1 H2] [H3 H4]. unfold evals, mbind, M_bind. cbn.
  rewrite H2. cbn. by rewrite H1.
Qed.

Lemma evals_readCell st x y v :
  getCell (st_board st) x y = Ret v -> evals (readCell x y) st st v.
Proof. intros H. by split. Qed.

Lemma evals_writeCell st x y v b' :
  setCell (st_board st) x y v = Ret b' ->
  evals (writeCell x y v) st (mkStore b' (st_ledger st)) tt.
Proof. intros H. unfold evals, writeCell. by rewrite H. Qed.

Lemma evals_readLedger st : evals readLedger st st (st_ledger st).
Proof. done. Qed.

(** ** The run-counting loops finish *)

Lemma remaining_step rx ry sx sy :
  unit_step sx sy ->
  remaining (rx + sx) (ry + sy) sx sy = remaining rx ry sx sy - 1.
Proof.
  intros (Hx & Hy & Hne). unfold remaining.
  destruct (Z.eqb_spec sx 1); [lia|].
  destruct (Z.eqb_spec sx (-1)); [lia|].
  destruct (Z.eqb_spec sy 1); lia.
Qed.

Lemma remaining_inside rx ry sx sy :
  unit_step sx sy -> inside rx ry = true -> 1 <= remaining rx ry sx sy <= N.
Proof.
  intros (Hx & Hy & Hne) [Hrx Hry]%inside_spec. unfold remaining.
  destruct (Z.eqb_spec sx 1); [lia|].
  destruct (Z.eqb_spec sx (-1)); [lia|].
  destruct (Z.eqb_spec sy 1); lia.
Qed.

(** With fuel for every cell ahead, the loop ends normally; it leaves
    the store as it found it and has only added to the count. *)
Lemma scan_evals fuel : forall rx ry sx sy n st,
  unit_step sx sy -> has_rows (st_board st) ->
  0 <= remaining rx ry sx sy < Z.of_nat fuel ->
  exists k, n <= k /\ evals (scan fuel rx ry sx sy n) st st k.
Proof.
  induction fuel as [|fuel IH]; intros rx ry sx sy n st Hstep Hrows Hrem; [lia|].
  cbn [scan]. destruct (inside rx ry) eqn:Hin.
  - destruct (has_rows_getCell _ _ _ Hrows Hin) as [v Hv].
    destruct (strictEq v 1) eqn:Hocc.
    + destruct (IH (rx + sx) (ry + sy) sx sy (n + 1) st Hstep Hrows) as (k & Hk & Hev).
      { rewrite remaining_step by done.
        pose proof (remaining_inside _ _ _ _ Hstep Hin). lia. }
      exists k. split; [lia|].
      eapply evals_bind; [by apply evals_readCell|]. by rewrite Hocc.
    + exists n. split; [lia|].
      eapply evals_bind; [by apply evals_readCell|]. rewrite Hocc. apply evals_ret.
  - exists n. split; [lia | apply evals_ret].
Qed.

Lemma unit_step_DIRS dx dy :
  In (dx, dy) DIRS -> unit_step dx dy /\ unit_step (- dx) (- dy).
Proof.
  unfold DIRS, unit_step. simpl.
  intros [[= <- <-]|[[= <- <-]|[[= <- <-]|[[= <- <-]|[]]]]]; lia.
Qed.

Lemma scan_from_neighbour st x y sx sy :
  unit_step sx sy -> has_rows (st_board st) -> inside x y = true ->
  0 <= runLen st (x + sx) (y + sy) sx sy /\
  evals (scan scanFuel (x + sx) (y + sy) sx sy 0) st st
        (runLen st (x + sx) (y + sy) sx sy).
Proof.
  intros Hstep Hrows Hin.
  destruct (scan_evals scanFuel (x + sx) (y + sy) sx sy 0 st Hstep Hrows)
    as (k & Hk & Hev).
  { rewrite remaining_step by done.
    pose proof (remaining_inside _ _ _ _ Hstep Hin).
    unfold scanFuel. lia. }
  unfold runLen. destruct Hev as [Hf Hr]. rewrite Hr. by repeat split.
Qed.

(** The fuel is never used up, whatever the store holds. *)

Lemma getCell_not_diverge b x y : getCell b x y <> Diverge.
Proof. unfold getCell. by destruct (elemAt b y). Qed.

Lemma bind_not_diverge {A B} (m : M A) (f : A -> M B) st :
  result (m st) <> Diverge ->
  (forall a, result (f a (final (m st))) <> Diverge) ->
  result ((m ≫= f) st) <> Diverge.
Proof.
  intros Hm Hf. unfold mbind, M_bind. cbn.
  destruct (result (m st)) as [a| |]; cbn; [apply Hf | done | done].
Qed.

Lemma writeCell_not_diverge x y v st : result (writeCell x y v st) <> Diverge.
Proof.
  unfold writeCell, setCell. by destruct (elemAt (st_board st) y).
Qed.

Lemma scan_finishes fuel : forall rx ry sx sy n st,
  unit_step sx sy -> 0 <= remaining rx ry sx sy < Z.of_nat fuel ->
  result (scan fuel rx ry sx sy n st) <> Diverge.
Proof.
  induction fuel as [|fuel IH]; intros rx ry sx sy n st Hstep Hrem; [lia|].
  cbn [scan]. destruct (inside rx ry) eqn:Hin; [|done].
  apply bind_not_diverge; [apply getCell_not_diverge|].
  intros v. destruct (strictEq v 1); [|done].
  apply IH; [done|]. rewrite remaining_step by done.
  pose proof (remaining_inside _ _ _ _ Hstep Hin). lia.
Qed.

Lemma forEachAxis_finishes ex x y dirs : forall axis segs st,
  inside x y = true -> (forall d, In d dirs -> In d DIRS) ->
  result (forEachAxis (axisStep ex x y) dirs axis segs st) <> Diverge.
Proof.
  induction dirs as [|[dx dy] rest IH]; intros axis segs st Hin Hdirs; [done|].
  cbn [forEachAxis].
  destruct (unit_step_DIRS dx dy) as [Hpos Hneg]; [apply Hdirs; by left|].
  assert (Hfuel : forall sx sy, unit_step sx sy ->
            0 <= remaining (x + sx) (y + sy) sx sy < Z.of_nat scanFuel).
  { intros sx sy Hstep. rewrite remaining_step by done.
    pose proof (remaining_inside _ _ _ _ Hstep Hin). unfold scanFuel. lia. }
  apply bind_not_diverge.
  - unfold axisStep. apply bind_not_diverge.
    + change (x - dx) with (x + - dx). change (y - dy) with (y + - dy).
      apply scan_finishes; auto.
    + intros l. apply bind_not_diverge; [apply scan_finishes; auto | done].
  - intros segs'. apply IH; [done|]. intros d Hd. apply Hdirs. by right.
Qed.

Lemma linesCreatedIfPlaced_finishes x y st :
  result (linesCreatedIfPlaced x y st) <> Diverge.
Proof.
  unfold linesCreatedIfPlaced. destruct (inside x y) eqn:Hin; [|done]. cbn [negb].
  apply bind_not_diverge; [apply getCell_not_diverge|].
  intros v. destruct (strictNe v 0); [done|].
  apply bind_not_diverge; [apply writeCell_not_diverge|]. intros _.
  apply bind_not_diverge; [done|]. intros ex.
  apply bind_not_diverge; [by apply forEachAxis_finishes|]. intros segs.
  apply bind_not_diverge; [apply writeCell_not_diverge | done].
Qed.

(** ** What the evaluator computes *)

Lemma axisStep_evals ex st x y dx dy axis segs :
  has_rows (st_board st) -> inside x y = true -> In (dx, dy) DIRS ->
  evals (axisStep ex x y (dx, dy) axis segs) st st
    (axisWindows ex segs x y dx dy axis
       (runLen st (x - dx) (y - dy) (- dx) (- dy))
       (runLen st (x + dx) (y + dy) dx dy)).
Proof.
  intros Hrows Hin [Hpos Hneg]%unit_step_DIRS. unfold axisStep.
  eapply evals_bind.
  { change (x - dx) with (x + - dx). change (y - dy) with (y + - dy).
    by apply scan_from_neighbour. }
  eapply evals_bind; [by apply scan_from_neighbour|]. apply evals_ret.
Qed.

Lemma forEachAxis_evals ex st x y dirs : forall axis segs,
  has_rows (st_board st) -> inside x y = true ->
  (forall d, In d dirs -> In d DIRS) ->
  evals (forEachAxis (axisStep ex x y) dirs axis segs) st st
        (axesWindows ex st x y dirs axis segs).
Proof.
  induction dirs as [|[dx dy] rest IH]; intros axis segs Hrows Hin Hdirs.
  - apply evals_ret.
  - cbn [forEachAxis axesWindows]. eapply evals_bind.
    + apply axisStep_evals; [done..|]. apply Hdirs. by left.
    + apply IH; [done..|]. intros d Hd. apply Hdirs. by right.
Qed.

(** Off the board the evaluator answers at once. *)
Lemma lines_outside st x y :
  inside x y = false ->
  linesCreatedIfPlaced x y st = mkRun st [] (Ret (mkCreated 0 [])).
Proof. intros H. unfold linesCreatedIfPlaced. by rewrite H. Qed.

(** On a cell that does not hold 0 it answers after the one read. *)
Lemma lines_occupied st x y v :
  inside x y = true -> getCell (st_board st) x y = Ret v -> strictNe v 0 = true ->
  evals (linesCreatedIfPlaced x y) st st (mkCreated 0 []).
Proof.
  intros Hin Hv Hne. unfold linesCreatedIfPlaced. rewrite Hin. cbn [negb].
  eapply evals_bind; [by apply evals_readCell|]. rewrite Hne. apply evals_ret.
Qed.

Lemma strictNe_false v n : strictNe v n = false <-> v = JNum n.
Proof.
  unfold strictNe, strictEq. destruct v as [|m]; cbn; [split; discriminate|].
  destruct (Z.eqb_spec m n); cbn; split; congruence.
Qed.

(** On an empty cell it marks the cell, collects the windows of the four
    axes on the marked board, and clears the mark. *)
Lemma lines_empty st x y :
  has_rows (st_board st) -> inside x y = true ->
  getCell (st_board st) x y = Ret (JNum 0) ->
  let segs := axesWindows (st_ledger st) (probed st x y) x y DIRS 0 [] in
  evals (linesCreatedIfPlaced x y) st st
        (mkCreated (Z.of_nat (length segs)) segs).
Proof.
  intros Hrows Hin Hv segs. unfold linesCreatedIfPlaced. rewrite Hin. cbn [negb].
  destruct (probe_undo _ _ _ Hv) as (b1 & Hset & Hunset & Hlen).
  assert (Hp : probed st x y = mkStore b1 (st_ledger st)).
  { unfold probed, writeCell. by rewrite Hset. }
  eapply evals_bind; [by apply evals_readCell|]. cbn [strictNe strictEq Z.eqb negb].
  eapply evals_bind; [by apply evals_writeCell|].
  eapply evals_bind; [apply evals_readLedger|]. cbn [st_ledger].
  eapply evals_bind.
  { apply forEachAxis_evals; [|done|done]. unfold has_rows in *. cbn. lia. }
  eapply evals_bind.
  { apply evals_writeCell. cbn. exact Hunset. }
  cbn [st_ledger]. subst segs. rewrite Hp.
  destruct st as [b ledger]. apply evals_ret.
Qed.

(** The evaluator always returns, and leaves the store as it found it. *)
Lemma lines_evals st x y :
  has_rows (st_board st) -> exists c, evals (linesCreatedIfPlaced x y) st st c.
Proof.
  intros Hrows. destruct (inside x y) eqn:Hin.
  - destruct (has_rows_getCell _ _ _ Hrows Hin) as [v Hv].
    destruct (strictNe v 0) eqn:Hne.
    + eexists. by eapply lines_occupied.
    + apply strictNe_false in Hne as ->. eexists. by apply lines_empty.
  - eexists. unfold evals. rewrite (lines_outside _ _ _ Hin). by split.
Qed.

Lemma Ret_inj {A} (a b : A) : Ret a = Ret b -> a = b.
Proof. by intros [= ->]. Qed.

Lemma is_board_makeEmptyBoard : is_board makeEmptyBoard.
Proof. by_evaluation. Qed.

#[local] Hint Resolve is_board_makeEmptyBoard : board.

(** ** The self-tests of the component

    The six [console.assert] checks the component runs when it mounts,
    evaluated on the embedding. *)

Example selftest_r1 :
  1 <= countOf (linesCreatedIfPlaced CENTER (CENTER - 4) (mkStore (board mount) [])).
Proof. by vm_compute. Qed.

Example selftest_r2 :
  1 <= countOf (linesCreatedIfPlaced (CENTER + 5) CENTER (mkStore (board mount) [])).
Proof. by vm_compute. Qed.

Example selftest_r3 :
  countOf (linesCreatedIfPlaced (CENTER + 5) (CENTER + 5)
             (mkStore (board mount) [])) = 0.
Proof. by vm_compute. Qed.

Example selftest_r4 :
  countOf (linesCreatedIfPlaced 14 14 (mkStore selftest_d [])) = 1.
Proof. by vm_compute. Qed.

Example selftest_r5 a b c d :
  countOf (linesCreatedIfPlaced 10 8
             (mkStore selftest_t [scenarioA_scored a b c d])) = 0.
Proof. by vm_compute. Qed.

Example selftest_r6 :
  2 <= countOf (linesCreatedIfPlaced 10 10 (mkStore selftest_s [])).
Proof. by vm_compute. Qed.

(** ** Out-of-bounds evaluation *)

(** C10. For every coordinate outside the grid, and whatever the board
    and the ledger are, [linesCreatedIfPlaced] returns
    [{ count: 0, segs: [] }]: it completes normally, has made no access
    to a board cell (no read, no write) and leaves the store as it was. *)
Theorem out_of_bounds_evaluation st x y :
  ~ (0 <= x < N /\ 0 <= y < N) ->
  linesCreatedIfPlaced x y st = mkRun st [] (Ret (mkCreated 0 [])).
Proof. intros H%inside_false. by apply lines_outside. Qed.

Lemma out_of_bounds_evaluation_witness :
  linesCreatedIfPlaced (-1) 3 (mkStore [] []) =
  mkRun (mkStore [] []) [] (Ret (mkCreated 0 [])).
Proof. apply (out_of_bounds_evaluation (mkStore [] []) (-1) 3). unfold N. lia. Defined.

(** ** Purity of the evaluation *)

(** C5. On every board, with every ledger and at every cell, a call of
    [linesCreatedIfPlaced] returns and leaves the store - the board and
    the ledger - equal to what it was before the call, so that a second
    call made right after the first returns the same [{ count, segs }]. *)
Theorem evaluation_is_pure st x y :
  is_board (st_board st) ->
  exists c,
    result (linesCreatedIfPlaced x y st) = Ret c /\
    final (linesCreatedIfPlaced x y st) = st /\
    result (linesCreatedIfPlaced x y (final (linesCreatedIfPlaced x y st))) = Ret c.
Proof.
  intros Hb%is_board_has_rows.
  destruct (lines_evals st x y Hb) as (c & Hf & Hr).
  exists c. by rewrite Hf, Hr.
Qed.

Lemma evaluation_is_pure_witness :
  exists c,
    result (linesCreatedIfPlaced 10 8 (mkStore scenarioA_board [])) = Ret c /\
    final (linesCreatedIfPlaced 10 8 (mkStore scenarioA_board [])) =
      mkStore scenarioA_board [] /\
    result (linesCreatedIfPlaced 10 8
              (final (linesCreatedIfPlaced 10 8 (mkStore scenarioA_board [])))) = Ret c.
Proof.
  apply (evaluation_is_pure (mkStore scenarioA_board []) 10 8).
  by_evaluation.
Defined.

(** ** Same-axis overlap blocking *)

(** C4. Scenario A: with (6,8)..(9,8) occupied and the horizontal window
    over (5,8)..(9,8) in the ledger, a placement at (10,8) evaluates to
    count 0 and no window, although with an empty ledger the same
    placement completes the five (6,8)..(10,8). *)
Theorem scenario_A_overlap_blocks a b c d :
  result (linesCreatedIfPlaced 10 8
            (mkStore scenarioA_board [scenarioA_scored a b c d]))
    = Ret (mkCreated 0 []) /\
  result (linesCreatedIfPlaced 10 8 (mkStore scenarioA_board []))
    = Ret (mkCreated 1 [window 10 8 1 0 0 4 0]).
Proof. split; by vm_compute. Qed.

(** ** The enumerators *)

Lemma legalAt_count st x y c :
  inside x y = true -> getCell (st_board st) x y = Ret (JNum 0) ->
  evals (linesCreatedIfPlaced x y) st st c ->
  ((0 <? count c) = true <-> legalAt st x y).
Proof.
  intros Hin Hv [_ Hr]. rewrite Z.ltb_lt. unfold legalAt. split.
  - eauto 6.
  - intros (_ & _ & c' & Hr' & Hc). congruence.
Qed.

Lemma not_legalAt_occupied st x y v :
  getCell (st_board st) x y = Ret v -> strictNe v 0 = true -> ~ legalAt st x y.
Proof.
  intros Hv Hne (_ & Hv' & _). rewrite Hv in Hv'. injection Hv' as ->.
  discriminate.
Qed.

Section Enumerators.

Context (st : Store) (Hrows : has_rows (st_board st)).

(** One row of [findAnyLegalMove]: it reports whether a cell among the
    columns [xs] is legal. *)
Lemma findInRow_evals y xs :
  0 <= y < N -> (forall x, In x xs -> 0 <= x < N) ->
  exists found,
    evals (findInRow y xs) st st found /\
    (found = true <-> exists x, In x xs /\ legalAt st x y).
Proof.
  intros Hy. induction xs as [|x xs IH]; intros Hxs.
  - exists false. split; [apply evals_ret|].
    split; [discriminate | intros (x & [] & _)].
  - assert (Hin : inside x y = true).
    { apply inside_spec. split; [apply Hxs; by left | done]. }
    destruct IH as (found & Hev & Hfound); [intros; apply Hxs; by right|].
    destruct (has_rows_getCell _ _ _ Hrows Hin) as [v Hv].
    cbn [findInRow]. destruct (strictNe v 0) eqn:Hne.
    + exists found. split.
      * eapply evals_bind; [by apply evals_readCell|]. by rewrite Hne.
      * rewrite Hfound. split; intros (x' & Hx' & Hl); exists x'.
        -- split; [by right | done].
        -- destruct Hx' as [<-|Hx']; [|done].
           by destruct (not_legalAt_occupied _ _ _ _ Hv Hne).
    + apply strictNe_false in Hne as Hv0. subst v.
      destruct (lines_evals st x y Hrows) as [c Hc].
      pose proof (legalAt_count _ _ _ _ Hin Hv Hc) as Hlegal.
      destruct (0 <? count c) eqn:Hpos.
      * exists true. split.
        -- eapply evals_bind; [by apply evals_readCell|]. rewrite Hne.
           eapply evals_bind; [exact Hc|]. rewrite Hpos. apply evals_ret.
        -- split; [|done]. intros _. exists x. split; [by left | by apply Hlegal].
      * exists found. split.
        -- eapply evals_bind; [by apply evals_readCell|]. rewrite Hne.
           eapply evals_bind; [exact Hc|]. by rewrite Hpos.
        -- rewrite Hfound. split; intros (x' & Hx' & Hl); exists x'.
           ++ split; [by right | done].
           ++ destruct Hx' as [<-|Hx']; [|done].
              apply Hlegal in Hl. discriminate.
Qed.

Lemma findInRows_evals ys :
  (forall y, In y ys -> 0 <= y < N) ->
  exists found,
    evals (findInRows ys) st st found /\
    (found = true <-> exists x y, In y ys /\ legalAt st x y).
Proof.
  induction ys as [|y ys IH]; intros Hys.
  - exists false. split; [apply evals_ret|].
    split; [discriminate | intros (x & y & [] & _)].
  - destruct IH as (rest & Hev & Hrest); [intros; apply Hys; by right|].
    destruct (findInRow_evals y (seqZ 0 N)) as (found & Hrow & Hfound).
    { apply Hys. by left. }
    { intros x Hx%list_elem_of_In%elem_of_seqZ. lia. }
    cbn [findInRows]. destruct found.
    + exists true. split; [eapply evals_bind; [exact Hrow | apply evals_ret]|].
      split; [|done]. intros _.
      destruct (proj1 Hfound eq_refl) as (x & _ & Hl).
      exists x, y. split; [by left | done].
    + exists rest. split; [eapply evals_bind; [exact Hrow | exact Hev]|].
      rewrite Hrest. split; intros (x & y' & Hy' & Hl); exists x, y'.
      * split; [by right | done].
      * destruct Hy' as [<-|Hy']; [|done].
        assert (false = true); [|discriminate]. apply Hfound. exists x.
        split; [|done]. apply list_elem_of_In, elem_of_seqZ.
        destruct Hl as [[Hx _]%inside_spec _]. lia.
Qed.

(** [findAnyLegalMove] returns, leaves the store as it found it, and
    says whether some cell is legal. *)
Lemma findAnyLegalMove_evals :
  exists found,
    evals findAnyLegalMove st st found /\
    (found = true <-> exists x y, legalAt st x y).
Proof.
  destruct (findInRows_evals (seqZ 0 N)) as (found & Hev & Hfound).
  { intros y Hy%list_elem_of_In%elem_of_seqZ. lia. }
  exists found. split; [done|]. rewrite Hfound.
  split; intros (x & y & H); exists x, y; [tauto|].
  split; [|done]. apply list_elem_of_In, elem_of_seqZ.
  destruct H as [[_ Hy]%inside_spec _]. lia.
Qed.

Lemma collectInRow_evals yy xs :
  0 <= yy < N -> (forall x, In x xs -> 0 <= x < N) ->
  forall out, exists out',
    evals (collectInRow yy xs out) st st out' /\
    (out' <> [] <-> out <> [] \/ exists x, In x xs /\ legalAt st x yy).
Proof.
  intros Hy. induction xs as [|x xs IH]; intros Hxs out.
  - exists out. split; [apply evals_ret|].
    split; [tauto | intros [|(x & [] & _)]; done].
  - assert (Hin : inside x yy = true).
    { apply inside_spec. split; [apply Hxs; by left | done]. }
    assert (Hxs' : forall x, In x xs -> 0 <= x < N) by (intros; apply Hxs; by right).
    destruct (has_rows_getCell _ _ _ Hrows Hin) as [v Hv].
    cbn [collectInRow]. destruct (strictNe v 0) eqn:Hne.
    + destruct (IH Hxs' out) as (out' & Hev & Hout). exists out'. split.
      * eapply evals_bind; [by apply evals_readCell|]. by rewrite Hne.
      * rewrite Hout. split; (intros [|(x' & Hx' & Hl)]; [by left|right; exists x']).
        -- split; [by right | done].
        -- destruct Hx' as [<-|Hx']; [|done].
           by destruct (not_legalAt_occupied _ _ _ _ Hv Hne).
    + apply strictNe_false in Hne as Hv0. subst v.
      destruct (lines_evals st x yy Hrows) as [c Hc].
      pose proof (legalAt_count _ _ _ _ Hin Hv Hc) as Hlegal.
      destruct (IH Hxs' (if 0 <? count c
                         then out ++ [mkLegalMove x yy (count c)] else out))
        as (out' & Hev & Hout).
      exists out'. split.
      * eapply evals_bind; [by apply evals_readCell|]. rewrite Hne.
        eapply evals_bind; [exact Hc | exact Hev].
      * rewrite Hout. destruct (0 <? count c) eqn:Hpos.
        -- split; [|intros _; left; by destruct out].
           intros _. right. exists x. split; [by left | by apply Hlegal].
        -- split; (intros [|(x' & Hx' & Hl)]; [by left|right; exists x']).
           ++ split; [by right | done].
           ++ destruct Hx' as [<-|Hx']; [|done].
              apply Hlegal in Hl. discriminate.
Qed.

Lemma collectInRows_evals ys :
  (forall y, In y ys -> 0 <= y < N) ->
  forall out, exists out',
    evals (collectInRows ys out) st st out' /\
    (out' <> [] <-> out <> [] \/ exists x y, In y ys /\ legalAt st x y).
Proof.
  induction ys as [|y ys IH]; intros Hys out.
  - exists out. split; [apply evals_ret|].
    split; [tauto | intros [|(x & y & [] & _)]; done].
  - destruct (collectInRow_evals y (seqZ 0 N)) with (out := out)
      as (out1 & Hrow & Hout1).
    { apply Hys. by left. }
    { intros x Hx%list_elem_of_In%elem_of_seqZ. lia. }
    destruct (IH (fun y' H => Hys y' (or_intror H)) out1) as (out' & Hev & Hout).
    exists out'. split; [eapply evals_bind; [exact Hrow | exact Hev]|].
    rewrite Hout, Hout1. split.
    + intros [[|(x & Hx & Hl)]|(x & y' & Hy' & Hl)]; [by left|right..].
      * exists x, y. split; [by left | done].
      * exists x, y'. split; [by right | done].
    + intros [|(x & y' & [<-|Hy'] & Hl)]; [by left; left| |].
      * left. right. exists x. split; [|done].
        apply list_elem_of_In, elem_of_seqZ.
        destruct Hl as [[Hx _]%inside_spec _]. lia.
      * right. exists x, y'. by split.
Qed.

End Enumerators.

(** C8. On every board and with every ledger, [findAnyLegalMove] and
    [getAllLegalMoves] both return; [findAnyLegalMove] returns true
    exactly when some empty cell of the grid evaluates to a positive
    count, and that holds exactly when the list [getAllLegalMoves]
    returns is not empty. *)
Theorem enumerators_agree st :
  is_board (st_board st) ->
  exists found moves,
    result (findAnyLegalMove st) = Ret found /\
    result (getAllLegalMoves st) = Ret moves /\
    (found = true <-> exists x y, legalAt st x y) /\
    ((exists x y, legalAt st x y) <-> moves <> []).
Proof.
  intros Hrows%is_board_has_rows.
  destruct (findAnyLegalMove_evals st Hrows) as (found & [_ Hr] & Hfound).
  destruct (collectInRows_evals st Hrows (seqZ 0 N)) with (out := @nil LegalMove)
    as (out & [_ Hout] & Hlegal).
  { intros y Hy%list_elem_of_In%elem_of_seqZ. lia. }
  exists found, out. repeat split; [done | done | apply Hfound | apply Hfound | |].
  - intros (x & y & Hl). apply Hlegal. right. exists x, y. split; [|done].
    apply list_elem_of_In, elem_of_seqZ.
    destruct Hl as [[_ Hy]%inside_spec _]. lia.
  - intros [|(x & y & _ & Hl)]%Hlegal; [done | eauto].
Qed.

Lemma enumerators_agree_witness :
  exists found moves,
    result (findAnyLegalMove (mkStore scenarioA_board [])) = Ret found /\
    result (getAllLegalMoves (mkStore scenarioA_board [])) = Ret moves /\
    (found = true <-> exists x y, legalAt (mkStore scenarioA_board []) x y) /\
    ((exists x y, legalAt (mkStore scenarioA_board []) x y) <-> moves <> []).
Proof.
  apply (enumerators_agree (mkStore scenarioA_board [])).
  by_evaluation.
Defined.

(** ** The click handler *)

Lemma withStore_storeOf s : withStore s (storeOf s) = s.
Proof. by destruct s. Qed.

Lemma strictNe_true v n : v <> JNum n -> strictNe v n = true.
Proof.
  intros Hv. destruct (strictNe v n) eqn:Hne; [done|].
  by apply strictNe_false in Hne.
Qed.

(** C6. A click while the game is over, or on a cell that is not empty,
    or on an empty cell whose evaluation counts 0, returns normally and
    leaves the board, the ledger, the score and the move counter (and
    the game-over flag) as they were. *)
Theorem rejected_moves_change_nothing s x y :
  is_board (board s) ->
  gameOver s = true \/
  (exists v, getCell (board s) x y = Ret v /\ v <> JNum 0) \/
  (getCell (board s) x y = Ret (JNum 0) /\
   exists c, result (linesCreatedIfPlaced x y (storeOf s)) = Ret c /\ count c = 0) ->
  exists s',
    handleCellClick x y s = (s', Ret tt) /\
    board s' = board s /\ segments s' = segments s /\
    score s' = score s /\ moves s' = moves s /\ gameOver s' = gameOver s.
Proof.
  intros Hb Hcase. unfold handleCellClick.
  destruct (gameOver s) eqn:Hover; [by exists s|].
  destruct Hcase as [|[(v & Hv & Hne)|(Hv & c & Hc & Hcount)]]; [done| |].
  - rewrite Hv, (strictNe_true _ _ Hne). by exists s.
  - rewrite Hv. cbn [strictNe strictEq Z.eqb negb].
    destruct (lines_evals (storeOf s) x y) as (c' & Hf & Hr).
    { auto with board. }
    rewrite Hf, Hr, withStore_storeOf.
    assert (c' = c) as -> by congruence.
    rewrite Hcount. cbn. eexists. by repeat split.
Qed.

Lemma rejected_moves_change_nothing_witness :
  exists s',
    handleCellClick 10 10 mount = (s', Ret tt) /\
    board s' = board mount /\ segments s' = segments mount /\
    score s' = score mount /\ moves s' = moves mount /\
    gameOver s' = gameOver mount.
Proof.
  apply (rejected_moves_change_nothing mount 10 10).
  - by_evaluation.
  - right. left. exists (JNum 1). split; [by vm_compute | discriminate].
Defined.

(** ** What the evaluator accepts *)

Lemma pushIfUnique_inv (P : Segment -> Prop) ex segs cand :
  (forall w, In w segs -> P w) ->
  (overlapsExisting ex cand = false -> P cand) ->
  forall w, In w (pushIfUnique ex segs cand) -> P w.
Proof.
  intros Hsegs Hcand w. unfold pushIfUnique.
  destruct (overlapsExisting ex cand); [apply Hsegs|].
  destruct (existsb _ segs); [apply Hsegs|].
  rewrite in_app_iff. intros [Hw|[<-|[]]]; auto.
Qed.

Lemma axisWindows_inv (P : Segment -> Prop) ex segs x y dx dy axis l r :
  (forall w, In w segs -> P w) ->
  (forall tl tr, tl + tr = 4 ->
     overlapsExisting ex (window x y dx dy axis tl tr) = false ->
     P (window x y dx dy axis tl tr)) ->
  forall w, In w (axisWindows ex segs x y dx dy axis l r) -> P w.
Proof.
  intros Hsegs Hwin. unfold axisWindows.
  destruct (5 <=? l + 1 + r); [|done].
  assert (HA : forall w,
    In w (if 4 - Z.min 4 l <=? r
          then pushIfUnique ex segs (leftHeavy x y dx dy axis l) else segs) -> P w).
  { destruct (4 - Z.min 4 l <=? r); [|done].
    apply pushIfUnique_inv; [done|]. apply Hwin. lia. }
  destruct (4 - Z.min 4 r <=? l); [|done].
  apply pushIfUnique_inv; [done|]. apply Hwin. lia.
Qed.

Lemma axesWindows_inv (P : Segment -> Prop) ex st x y dirs : forall axis segs,
  (forall w, In w segs -> P w) ->
  (forall dx dy axis tl tr, tl + tr = 4 ->
     overlapsExisting ex (window x y dx dy axis tl tr) = false ->
     P (window x y dx dy axis tl tr)) ->
  forall w, In w (axesWindows ex st x y dirs axis segs) -> P w.
Proof.
  induction dirs as [|[dx dy] rest IH]; intros axis segs Hsegs Hwin; [done|].
  cbn [axesWindows]. apply IH; [|done].
  apply axisWindows_inv; [done|]. intros tl tr. apply Hwin.
Qed.

(** Whatever the evaluator returns, on a board: *)
Lemma lines_cases st x y c :
  has_rows (st_board st) -> result (linesCreatedIfPlaced x y st) = Ret c ->
  c = mkCreated 0 [] \/
  (inside x y = true /\ getCell (st_board st) x y = Ret (JNum 0) /\
   let segs := axesWindows (st_ledger st) (probed st x y) x y DIRS 0 [] in
   c = mkCreated (Z.of_nat (length segs)) segs).
Proof.
  intros Hrows Hc. destruct (inside x y) eqn:Hin.
  - destruct (has_rows_getCell _ _ _ Hrows Hin) as [v Hv].
    destruct (strictNe v 0) eqn:Hne.
    + left. destruct (lines_occupied _ _ _ _ Hin Hv Hne) as [_ Hr]. congruence.
    + apply strictNe_false in Hne as ->. right.
      destruct (lines_empty _ _ _ Hrows Hin Hv) as [_ Hr].
      cbv zeta in *. split; [done|]. split; [done|]. congruence.
  - left. rewrite (lines_outside _ _ _ Hin) in Hc. cbn in Hc. congruence.
Qed.

(** No window the evaluator returns shares a cell with a ledger entry of
    its axis. *)
Lemma lines_no_overlap st x y c :
  has_rows (st_board st) -> result (linesCreatedIfPlaced x y st) = Ret c ->
  forall w, In w (segs c) -> overlapsExisting (st_ledger st) w = false.
Proof.
  intros Hrows Hc. destruct (lines_cases _ _ _ _ Hrows Hc) as [->|(_ & _ & ->)].
  - intros w [].
  - cbn [segs]. by apply axesWindows_inv.
Qed.

(** ** Clicks and renders on a board *)

Lemma seedInitialCross_board :
  exists b, seedInitialCross makeEmptyBoard = Ret b /\ is_board b.
Proof.
  eexists. split; [by vm_compute|]. by_evaluation.
Qed.

(** What a click does: nothing, or only the message of an invalid move,
    or - on a legal cell - the commit of the cell and of its windows. *)
Lemma handleCellClick_cases s x y :
  is_board (board s) ->
  fst (handleCellClick x y s) = s \/
  (~ legalAt (storeOf s) x y /\
   fst (handleCellClick x y s) = setMessage MsgInvalid s) \/
  (exists c next,
     legalAt (storeOf s) x y /\
     result (linesCreatedIfPlaced x y (storeOf s)) = Ret c /\
     setCell (board s) x y 1 = Ret next /\ is_board next /\
     fst (handleCellClick x y s) = accepted s x y c next).
Proof.
  intros Hb. unfold handleCellClick.
  destruct (gameOver s); [by left|].
  destruct (getCell (board s) x y) as [v| |] eqn:Hv; [|by left..].
  destruct (strictNe v 0) eqn:Hne; [by left|].
  apply strictNe_false in Hne as ->.
  pose proof (is_board_num_inside _ _ _ _ Hb Hv) as Hin.
  destruct (lines_evals (storeOf s) x y) as (c & Hf & Hr).
  { auto with board. }
  rewrite Hf, Hr, withStore_storeOf.
  pose proof (legalAt_count (storeOf s) x y c Hin Hv (conj Hf Hr)) as Hlegal.
  destruct (Z.leb_spec (count c) 0) as [Hle|Hpos].
  - right. left. split; [|done]. intros Hl%Hlegal. apply Z.ltb_lt in Hl. lia.
  - right. right. rewrite clone_id.
    destruct (probe_undo _ _ _ Hv) as (next & Hset & _ & _).
    rewrite Hset. exists c, next.
    split; [apply Hlegal, Z.ltb_lt; lia|].
    do 2 (split; [done|]). split; [by apply (setCell_is_board _ x y 1 _ Hb Hin) | done].
Qed.

(** A render leaves the board, the ledger and the counters alone. *)
Lemma renderEffect_frame s :
  is_board (board s) ->
  let s' := fst (renderEffect s) in
  board s' = board s /\ segments s' = segments s /\
  score s' = score s /\ moves s' = moves s.
Proof.
  intros Hb. unfold renderEffect.
  destruct (findAnyLegalMove_evals (storeOf s)) as (found & [Hf Hr] & _).
  { auto with board. }
  rewrite Hf, Hr, withStore_storeOf.
  by destruct (bool_decide _).
Qed.

Lemma reset_cases s :
  exists b, is_board b /\
    fst (reset s) = mkState b 0 0 false MsgPlace [] (effectDep s).
Proof.
  destruct seedInitialCross_board as (b & Hseed & Hb).
  exists b. split; [done|]. unfold reset, freshState. by rewrite Hseed.
Qed.

Lemma mount_is_board : is_board (board mount).
Proof. by_evaluation. Qed.

#[local] Hint Resolve mount_is_board : board.

(** ** Windows of one click *)

Lemma bind_Ret_inv {A B} (m : M A) (f : A -> M B) st b :
  result ((m ≫= f) st) = Ret b ->
  exists a, result (m st) = Ret a /\ result (f a (final (m st))) = Ret b.
Proof.
  unfold mbind, M_bind. cbn. destruct (result (m st)) as [a| |]; cbn; [eauto|done..].
Qed.

(** A loop only adds to its count. *)
Lemma scan_ge fuel : forall rx ry sx sy n st k,
  result (scan fuel rx ry sx sy n st) = Ret k -> n <= k.
Proof.
  induction fuel as [|fuel IH]; intros rx ry sx sy n st k; cbn [scan]; [done|].
  destruct (inside rx ry).
  - intros (v & _ & Hk)%bind_Ret_inv. destruct (strictEq v 1).
    + apply IH in Hk. lia.
    + injection Hk as <-. lia.
  - intros [= <-]. lia.
Qed.

Lemma runLen_nonneg st rx ry sx sy : 0 <= runLen st rx ry sx sy.
Proof.
  unfold runLen. destruct (result _) as [k| |] eqn:Hk; [|lia..].
  by apply scan_ge in Hk.
Qed.

(** A window that takes at most four cells before the placed cell holds
    the placed cell. *)
Lemma window_has_cell x y dx dy axis tl tr :
  0 <= tl <= 4 -> In (mkCell x y) (cells (window x y dx dy axis tl tr)).
Proof.
  intros Htl. cbn [window cells]. unfold windowCells.
  apply in_map_iff. exists tl. split.
  - f_equal; lia.
  - in_seqZ.
Qed.

Lemma axisWindows_has_cell ex segs x y dx dy axis l r :
  0 <= l -> 0 <= r ->
  (forall w, In w segs -> In (mkCell x y) (cells w)) ->
  forall w, In w (axisWindows ex segs x y dx dy axis l r) ->
            In (mkCell x y) (cells w).
Proof.
  intros Hl Hr Hsegs. unfold axisWindows, leftHeavy, rightHeavy.
  destruct (5 <=? l + 1 + r); [|done].
  assert (HA : forall w,
    In w (if 4 - Z.min 4 l <=? r
          then pushIfUnique ex segs (window x y dx dy axis (Z.min 4 l) (4 - Z.min 4 l))
          else segs) -> In (mkCell x y) (cells w)).
  { destruct (4 - Z.min 4 l <=? r); [|done].
    apply pushIfUnique_inv; [done|]. intros _. apply window_has_cell. lia. }
  destruct (4 - Z.min 4 r <=? l); [|done].
  apply pushIfUnique_inv; [done|]. intros _. apply window_has_cell. lia.
Qed.

Lemma axesWindows_has_cell ex st x y dirs : forall axis segs,
  (forall w, In w segs -> In (mkCell x y) (cells w)) ->
  forall w, In w (axesWindows ex st x y dirs axis segs) ->
            In (mkCell x y) (cells w).
Proof.
  induction dirs as [|[dx dy] rest IH]; intros axis segs Hsegs; [done|].
  cbn [axesWindows]. apply IH.
  apply axisWindows_has_cell; [apply runLen_nonneg..|done].
Qed.

(** Every window an evaluation returns holds the placed cell: the
    windows one click commits are never disjoint from each other. *)
Lemma returned_window_has_placed_cell st x y c w :
  has_rows (st_board st) -> result (linesCreatedIfPlaced x y st) = Ret c ->
  In w (segs c) -> In (mkCell x y) (cells w).
Proof.
  intros Hrows Hc.
  destruct (lines_cases _ _ _ _ Hrows Hc) as [->|(_ & _ & ->)]; [by intros []|].
  cbn [segs]. apply axesWindows_has_cell. by intros ? [].
Qed.

(** ** Sharing a cell *)

Lemma sameCell_eq a b : sameCell a b = true <-> a = b.
Proof.
  unfold sameCell. rewrite andb_true_iff, !Z.eqb_eq.
  destruct a, b; cbn. split; [intros [-> ->]; done | intros [= -> ->]; done].
Qed.

Lemma sharesCell_true ex cand :
  sharesCell ex cand = true <->
  exists c, In c (cells ex) /\ In c (cells cand).
Proof.
  unfold sharesCell. rewrite existsb_exists. split.
  - intros (c & Hc & (ec & Hec & ->%sameCell_eq)%existsb_exists). eauto.
  - intros (c & Hex & Hcand). exists c. split; [done|].
    apply existsb_exists. exists c. split; [done | by apply sameCell_eq].
Qed.

Lemma sharesCell_false ex cand :
  sharesCell ex cand = false <-> disjoint_cells ex cand.
Proof.
  unfold disjoint_cells. split.
  - intros Hf c Hex Hcand.
    assert (sharesCell ex cand = true) by (apply sharesCell_true; eauto).
    congruence.
  - intros Hd. destruct (sharesCell ex cand) eqn:Hs; [|done].
    apply sharesCell_true in Hs as (c & Hex & Hcand). by destruct (Hd c).
Qed.

Lemma disjoint_cells_sym w1 w2 : disjoint_cells w1 w2 -> disjoint_cells w2 w1.
Proof. intros Hd c H2 H1. by apply (Hd c). Qed.

Lemma overlapsExisting_false exs cand :
  overlapsExisting exs cand = false <->
  forall ex, In ex exs -> axisId ex = axisId cand -> disjoint_cells ex cand.
Proof.
  unfold overlapsExisting. split.
  - intros Hf ex Hex Haxis. apply sharesCell_false.
    destruct (sharesCell ex cand) eqn:Hs; [|done].
    assert (existsb (fun ex => (axisId ex =? axisId cand) && sharesCell ex cand)
                    exs = true); [|congruence].
    apply existsb_exists. exists ex. split; [done|].
    by rewrite Hs, andb_true_r, Z.eqb_eq.
  - intros Hd. destruct (existsb _ exs) eqn:He; [|done].
    apply existsb_exists in He as (ex & Hex & [Haxis%Z.eqb_eq Hs]%andb_true_iff).
    apply Hd, sharesCell_false in Haxis; [congruence | done].
Qed.

(** ** Every game keeps its ledger in batches *)

Lemma dispatch_click s x y :
  is_board (board s) ->
  let s' := dispatch (Click x y) s in
  is_board (board s') /\
  exists new,
    segments s' = segments s ++ new /\
    (forall w, In w new -> overlapsExisting (segments s) w = false) /\
    (forall w, In w new -> In (mkCell x y) (cells w)) /\
    (~ legalAt (storeOf s) x y ->
     board s' = board s /\ new = [] /\ score s' = score s).
Proof.
  intros Hb. unfold dispatch, handle.
  destruct (handleCellClick_cases s x y Hb)
    as [->|[(Hno & ->)|(c & next & Hl & Hc & Hset & Hnext & ->)]].
  - destruct (renderEffect_frame s Hb) as (-> & -> & -> & _).
    split; [done|]. exists []. by rewrite app_nil_r.
  - destruct (renderEffect_frame (setMessage MsgInvalid s) Hb) as (-> & -> & -> & _).
    split; [done|]. exists []. by rewrite app_nil_r.
  - destruct (renderEffect_frame (accepted s x y c next) Hnext) as (-> & -> & -> & _).
    split; [done|]. exists (segs c). split; [done|].
    split; [|split; [|done]].
    + apply (lines_no_overlap (storeOf s) x y c); [|done]. auto with board.
    + intros w. apply (returned_window_has_placed_cell (storeOf s) x y c); [|done].
      auto with board.
Qed.

Lemma In_concat_lookup {A} (bs : list (list A)) i b w :
  bs !! i = Some b -> In w b -> In w (concat bs).
Proof.
  intros Hb Hw. apply in_concat. exists b. split; [|done].
  apply list_elem_of_In. by eapply list_elem_of_lookup_2.
Qed.

Lemma batches_disjoint_snoc bs new :
  batches_disjoint bs ->
  (forall w, In w new -> overlapsExisting (concat bs) w = false) ->
  batches_disjoint (bs ++ [new]).
Proof.
  intros Hbs Hnew i j b1 b2 w1 w2 Hij H1 H2 Hw1 Hw2 Haxis.
  apply lookup_app_Some in H1 as [H1|[Hi H1]], H2 as [H2|[Hj H2]].
  - by eapply (Hbs i j).
  - apply list_lookup_singleton_Some in H2 as [_ <-].
    eapply overlapsExisting_false; [by apply Hnew | | done].
    by eapply In_concat_lookup.
  - apply list_lookup_singleton_Some in H1 as [_ <-].
    apply disjoint_cells_sym.
    eapply overlapsExisting_false; [by apply Hnew | | done].
    by eapply In_concat_lookup.
  - apply list_lookup_singleton_Some in H1 as [? _], H2 as [? _]. lia.
Qed.

Lemma batches_centred_snoc bs new x y :
  batches_centred bs ->
  (forall w, In w new -> In (mkCell x y) (cells w)) ->
  batches_centred (bs ++ [new]).
Proof.
  intros Hbs Hnew i b [Hb|[_ Hb]]%lookup_app_Some.
  - by apply (Hbs i).
  - apply list_lookup_singleton_Some in Hb as [_ <-]. by exists x, y.
Qed.

Lemma step_ok g e : game_ok g -> game_ok (step g e).
Proof.
  intros (Hb & Hsegs & Hdisj & Hcen). destruct e as [x y|]; unfold step.
  - destruct (dispatch_click (state g) x y Hb)
      as (Hb' & new & Hnew & Hover & Hcell & _).
    split; [done|]. cbn [state batches]. rewrite Hnew, drop_app_length.
    split; [|split].
    + rewrite concat_app, Hsegs. cbn. by rewrite app_nil_r.
    + apply batches_disjoint_snoc; [done|]. by rewrite <- Hsegs.
    + by apply (batches_centred_snoc _ _ x y).
  - unfold dispatch, handle.
    destruct (reset_cases (state g)) as (b & Hb' & ->).
    destruct (renderEffect_frame (mkState b 0 0 false MsgPlace []
                                   (effectDep (state g))) Hb') as (Hboard & Hs & _).
    unfold game_ok. cbn [state batches].
    split; [by rewrite Hboard|]. split; [by rewrite Hs|].
    split; [intros i j b1 b2 w1 w2 _ H1 | intros i b0 H1]; done.
Qed.

Lemma play_from_ok evs : forall g, game_ok g -> game_ok (fold_left step evs g).
Proof.
  induction evs as [|e evs IH]; intros g Hg; [done|].
  cbn. by apply IH, step_ok.
Qed.

Lemma play_ok evs : game_ok (play evs).
Proof.
  apply play_from_ok. split; [auto with board|].
  split; [by vm_compute|].
  split; [intros i j b1 b2 w1 w2 _ H1 | intros i b0 H1]; done.
Qed.

(** ** The ledger invariant *)

(** C1, as it holds.  In every game the ledger is the concatenation of
    the batches of windows committed click by click.  Two windows of one
    axis that different clicks committed have no cell in common; two
    windows that one click committed together have a cell in common (the
    placed one). *)
Theorem ledger_disjoint_across_moves evs (i j : nat) b1 b2 w1 w2 :
  batches (play evs) !! i = Some b1 -> batches (play evs) !! j = Some b2 ->
  In w1 b1 -> In w2 b2 -> axisId w1 = axisId w2 ->
  segments (state (play evs)) = concat (batches (play evs)) /\
  (i <> j -> forall c, In c (cells w1) -> ~ In c (cells w2)) /\
  (i = j -> exists c, In c (cells w1) /\ In c (cells w2)).
Proof.
  intros H1 H2 Hw1 Hw2 Haxis.
  destruct (play_ok evs) as (_ & Hsegs & Hdisj & Hcen).
  split; [done|]. split.
  - intros Hij. by apply (Hdisj i j b1 b2 w1 w2).
  - intros <-. assert (b2 = b1) as -> by congruence.
    destruct (Hcen i b1 H1) as (x & y & Hxy). exists (mkCell x y). auto.
Qed.

Lemma ledger_disjoint_across_moves_witness :
  segments (state (play double_score_game))
    = concat (batches (play double_score_game)) /\
  (0%nat <> 1%nat ->
   forall c, In c (cells (window 9 12 1 1 2 2 2)) ->
             ~ In c (cells (window 14 12 1 1 2 4 0))) /\
  (0%nat = 1%nat ->
   exists c, In c (cells (window 9 12 1 1 2 2 2)) /\
             In c (cells (window 14 12 1 1 2 4 0))).
Proof.
  apply (ledger_disjoint_across_moves double_score_game 0%nat 1%nat
           [window 9 12 1 1 2 2 2] [window 14 12 1 1 2 4 0]
           (window 9 12 1 1 2 2 2) (window 14 12 1 1 2 4 0)).
  - by vm_compute.
  - by vm_compute.
  - by left.
  - by left.
  - reflexivity.
Defined.

(** C1, as stated, fails: the fourth click of [double_score_game] commits
    the horizontal windows (9,12)..(13,12) and (10,12)..(14,12) together;
    they are entries 3 and 4 of the ledger and share the cell (10,12). *)
Lemma ledger_not_disjoint_after_double_score :
  ~ ledger_disjoint (state (play double_score_game)).
Proof.
  intros H.
  apply (H 3%nat 4%nat (window 13 12 1 0 0 4 0) (window 13 12 1 0 0 3 1)
           ltac:(discriminate) ltac:(by vm_compute) ltac:(by vm_compute)
           eq_refl (mkCell 10 12)).
  - right. by left.
  - by left.
Qed.

(** ** Termination is final *)

Lemma stuck_no_legal st :
  has_rows (st_board st) -> result (findAnyLegalMove st) = Ret false ->
  forall x y, ~ legalAt st x y.
Proof.
  intros Hrows Hr x y Hl.
  destruct (findAnyLegalMove_evals st Hrows) as (found & [_ Hr'] & Hfound).
  assert (found = true) by (apply Hfound; eauto). congruence.
Qed.

Lemma stuck_step g x y :
  is_board (board (state g)) ->
  result (findAnyLegalMove (storeOf (state g))) = Ret false ->
  let g' := step g (Click x y) in
  board (state g') = board (state g) /\
  segments (state g') = segments (state g) /\
  score (state g') = score (state g).
Proof.
  intros Hb Hstuck. cbn [step state].
  destruct (dispatch_click (state g) x y Hb) as (_ & new & Hnew & _ & _ & Hrej).
  destruct Hrej as (Hboard & -> & Hscore).
  { apply stuck_no_legal; auto with board. }
  by rewrite Hnew, app_nil_r.
Qed.

Lemma stuck_play cs : forall g,
  is_board (board (state g)) ->
  result (findAnyLegalMove (storeOf (state g))) = Ret false ->
  let g' := fold_left step (clicks cs) g in
  board (state g') = board (state g) /\
  segments (state g') = segments (state g) /\
  score (state g') = score (state g).
Proof.
  induction cs as [|[x y] cs IH]; intros g Hb Hstuck; [done|].
  cbn [clicks map fold_left fst snd].
  destruct (stuck_step g x y Hb Hstuck) as (Hboard & Hsegs & Hscore).
  destruct (IH (step g (Click x y))) as (Hboard' & Hsegs' & Hscore').
  - by rewrite Hboard.
  - unfold storeOf. by rewrite Hboard, Hsegs.
  - cbv zeta. fold (clicks cs). by rewrite Hboard', Hsegs', Hscore'.
Qed.

(** C9. In every state a game reaches, once [findAnyLegalMove] returns
    false no sequence of clicks changes the board, the ledger or the
    score, and [findAnyLegalMove] still returns false afterwards. *)
Theorem termination_is_final evs cs :
  result (findAnyLegalMove (storeOf (state (play evs)))) = Ret false ->
  let s := state (play evs) in
  let s' := state (play (evs ++ clicks cs)) in
  board s' = board s /\ segments s' = segments s /\ score s' = score s /\
  result (findAnyLegalMove (storeOf s')) = Ret false.
Proof.
  intros Hstuck. cbv zeta. unfold play at 1 3 5 7. rewrite fold_left_app.
  fold (play evs).
  destruct (stuck_play cs (play evs)) as (Hboard & Hsegs & Hscore).
  - apply play_ok.
  - done.
  - cbv zeta in *. rewrite Hboard, Hsegs, Hscore. repeat split.
    unfold storeOf. by rewrite Hboard, Hsegs.
Qed.

Lemma termination_is_final_witness :
  let s := state (play finished_game) in
  let s' := state (play (finished_game ++ clicks [(5, 5); (13, 12); (10, 16)])) in
  board s' = board s /\ segments s' = segments s /\ score s' = score s /\
  result (findAnyLegalMove (storeOf s')) = Ret false.
Proof.
  apply (termination_is_final finished_game [(5, 5); (13, 12); (10, 16)]).
  by vm_compute.
Defined.

(** ** One axis at a time *)

(** Keys that start with different axis numbers differ. *)
Lemma key_axis_neq s w :
  0 <= axisId s < 4 -> 0 <= axisId w < 4 -> axisId s <> axisId w ->
  key s <> key w.
Proof.
  intros Hs Hw Hne. unfold key.
  assert (Hs' : axisId s = 0 \/ axisId s = 1 \/ axisId s = 2 \/ axisId s = 3) by lia.
  assert (Hw' : axisId w = 0 \/ axisId w = 1 \/ axisId w = 2 \/ axisId w = 3) by lia.
  destruct Hs' as [Es|[Es|[Es|Es]]], Hw' as [Ew|[Ew|[Ew|Ew]]];
    rewrite Es, Ew in *; try lia; cbn; discriminate.
Qed.

Lemma pushIfUnique_fresh ex segs more cand :
  (forall s, In s segs -> key s <> key cand) ->
  pushIfUnique ex (segs ++ more) cand = segs ++ pushIfUnique ex more cand.
Proof.
  intros Hfresh. unfold pushIfUnique.
  destruct (overlapsExisting ex cand); [done|].
  rewrite existsb_app.
  assert (existsb (fun s => (key s =? key cand)%string) segs = false) as ->.
  { destruct (existsb _ segs) eqn:He; [|done].
    apply existsb_exists in He as (s & Hs & Hk%String.eqb_eq).
    by destruct (Hfresh s). }
  cbn. destruct (existsb _ more); [done | by rewrite app_assoc].
Qed.

Lemma axisWindows_fresh ex segs x y dx dy axis l r :
  0 <= axis < 4 ->
  (forall s, In s segs -> 0 <= axisId s < 4 /\ axisId s <> axis) ->
  axisWindows ex segs x y dx dy axis l r =
  segs ++ axisWindows ex [] x y dx dy axis l r.
Proof.
  intros Haxis Hsegs.
  assert (Hkey : forall tl tr s, In s segs ->
            key s <> key (window x y dx dy axis tl tr)).
  { intros tl tr s [Hs Hne]%Hsegs. by apply key_axis_neq. }
  unfold axisWindows, leftHeavy, rightHeavy.
  destruct (5 <=? l + 1 + r); [|by rewrite app_nil_r].
  destruct (4 - Z.min 4 l <=? r), (4 - Z.min 4 r <=? l).
  - rewrite <- (app_nil_r segs) at 1.
    rewrite !pushIfUnique_fresh by auto. done.
  - rewrite <- (app_nil_r segs) at 1. by rewrite pushIfUnique_fresh by auto.
  - rewrite <- (app_nil_r segs) at 1. by rewrite pushIfUnique_fresh by auto.
  - by rewrite app_nil_r.
Qed.

Lemma axisWindows_axis ex x y dx dy axis l r w :
  In w (axisWindows ex [] x y dx dy axis l r) -> axisId w = axis.
Proof.
  apply (axisWindows_inv (fun w => axisId w = axis)); [by intros ? [] | done].
Qed.

Lemma axisOf_axis ex st x y axis d w :
  In w (axisOf ex st x y axis d) -> axisId w = axis.
Proof. apply axisWindows_axis. Qed.

(** The result is the windows of axis 0, then of axis 1, 2 and 3. *)
Lemma axesWindows_DIRS ex st x y :
  axesWindows ex st x y DIRS 0 [] =
  axisOf ex st x y 0 (1, 0) ++ axisOf ex st x y 1 (0, 1) ++
  axisOf ex st x y 2 (1, 1) ++ axisOf ex st x y 3 (1, -1).
Proof.
  unfold DIRS, axisOf. cbn [axesWindows fst snd].
  change (0 + 1) with 1. change (1 + 1) with 2. change (2 + 1) with 3.
  rewrite (axisWindows_fresh ex (axisWindows ex [] x y 1 0 0 _ _) x y 0 1 1);
    [|lia|].
  2:{ intros s ->%axisWindows_axis. lia. }
  rewrite (axisWindows_fresh ex (_ ++ _) x y 1 1 2); [|lia|].
  2:{ intros s [->%axisWindows_axis| ->%axisWindows_axis]%in_app_iff; lia. }
  rewrite (axisWindows_fresh ex (_ ++ _) x y 1 (-1) 3); [|lia|].
  2:{ intros s [[->%axisWindows_axis| ->%axisWindows_axis]%in_app_iff
               | ->%axisWindows_axis]%in_app_iff; lia. }
  by rewrite <- !app_assoc.
Qed.

Lemma onAxis_same axis segs :
  (forall w, In w segs -> axisId w = axis) -> onAxis axis segs = segs.
Proof.
  intros H. unfold onAxis. induction segs as [|w segs IH]; [done|].
  cbn. rewrite (H w) by (by left). rewrite Z.eqb_refl.
  f_equal. apply IH. intros; apply H. by right.
Qed.

Lemma onAxis_other axis a segs :
  a <> axis -> (forall w, In w segs -> axisId w = a) -> onAxis axis segs = [].
Proof.
  intros Hne H. unfold onAxis. induction segs as [|w segs IH]; [done|].
  cbn. rewrite (H w) by (by left).
  destruct (Z.eqb_spec a axis); [done|]. apply IH. intros; apply H. by right.
Qed.

Lemma onAxis_app axis l1 l2 :
  onAxis axis (l1 ++ l2) = onAxis axis l1 ++ onAxis axis l2.
Proof. apply List.filter_app. Qed.

(** On the axis numbered [axis] the result holds the windows of that
    axis and no other. *)
Lemma onAxis_axesWindows ex st x y axis d :
  elemAt DIRS axis = Some d ->
  onAxis axis (axesWindows ex st x y DIRS 0 []) = axisOf ex st x y axis d.
Proof.
  intros Hd. pose proof (elemAt_bound _ _ _ Hd) as Hb. cbn in Hb.
  rewrite axesWindows_DIRS, !onAxis_app.
  assert (Haxis : axis = 0 \/ axis = 1 \/ axis = 2 \/ axis = 3) by lia.
  destruct Haxis as [-> | [-> | [-> | ->]]]; cbn in Hd; injection Hd as <-.
  - rewrite (onAxis_same 0), (onAxis_other 0 1), (onAxis_other 0 2),
      (onAxis_other 0 3); try done; try (intros w; apply axisOf_axis).
    by rewrite !app_nil_r.
  - rewrite (onAxis_other 1 0), (onAxis_same 1), (onAxis_other 1 2),
      (onAxis_other 1 3); try done; try (intros w; apply axisOf_axis).
    by rewrite !app_nil_r.
  - rewrite (onAxis_other 2 0), (onAxis_other 2 1), (onAxis_same 2),
      (onAxis_other 2 3); try done; try (intros w; apply axisOf_axis).
    by rewrite !app_nil_r.
  - rewrite (onAxis_other 3 0), (onAxis_other 3 1), (onAxis_other 3 2),
      (onAxis_same 3); try done; try (intros w; apply axisOf_axis).
Qed.

(** When the run through the placed cell has exactly five cells there is
    one candidate. *)
Lemma axisWindows_total_five ex x y dx dy axis l r :
  0 <= l -> 0 <= r -> l + 1 + r = 5 ->
  leftHeavy x y dx dy axis l = rightHeavy x y dx dy axis r /\
  axisWindows ex [] x y dx dy axis l r =
    if overlapsExisting ex (leftHeavy x y dx dy axis l) then []
    else [leftHeavy x y dx dy axis l].
Proof.
  intros Hl Hr Htotal.
  assert (Heq : leftHeavy x y dx dy axis l = rightHeavy x y dx dy axis r).
  { unfold leftHeavy, rightHeavy. cbv zeta.
    rewrite (Z.min_r 4 l), (Z.min_r 4 r) by lia.
    by replace (4 - l) with r by lia; replace (4 - r) with l by lia. }
  split; [done|]. unfold axisWindows. rewrite <- Heq.
  rewrite (Z.min_r 4 l), (Z.min_r 4 r) by lia.
  destruct (Z.leb_spec 5 (l + 1 + r)); [|lia].
  destruct (Z.leb_spec (4 - l) r); [|lia].
  destruct (Z.leb_spec (4 - r) l); [|lia].
  unfold pushIfUnique.
  destruct (overlapsExisting ex (leftHeavy x y dx dy axis l)); [done|].
  cbn. by rewrite String.eqb_refl.
Qed.

Lemma probed_spec st x y :
  getCell (st_board st) x y = Ret (JNum 0) ->
  exists b1, probed st x y = mkStore b1 (st_ledger st) /\
             length b1 = length (st_board st).
Proof.
  intros Hv. destruct (probe_undo _ _ _ Hv) as (b1 & Hset & _ & Hlen).
  exists b1. split; [|done]. unfold probed, writeCell. by rewrite Hset.
Qed.

Lemma elemAt_In {A} (l : list A) i a : elemAt l i = Some a -> In a l.
Proof.
  intros [_ H]%elemAt_Some. apply list_elem_of_In.
  by eapply list_elem_of_lookup_2.
Qed.

(** ** Coinciding candidates *)

(** C3, as it holds.  On an axis where the run through the placed cell
    has exactly five cells (L + R = 4, which for L = R means L = R = 2)
    the left-heavy and the right-heavy candidate are the same window,
    and the evaluation returns exactly that one window for the axis -
    or none, when the window shares a cell with a ledger entry of the
    axis. *)
Theorem windows_coincide_at_total_five st x y axis dx dy l r :
  is_board (st_board st) ->
  inside x y = true -> getCell (st_board st) x y = Ret (JNum 0) ->
  elemAt DIRS axis = Some (dx, dy) ->
  result (scan scanFuel (x - dx) (y - dy) (- dx) (- dy) 0 (probed st x y)) = Ret l ->
  result (scan scanFuel (x + dx) (y + dy) dx dy 0 (probed st x y)) = Ret r ->
  l + 1 + r = 5 ->
  leftHeavy x y dx dy axis l = rightHeavy x y dx dy axis r /\
  exists c,
    result (linesCreatedIfPlaced x y st) = Ret c /\
    onAxis axis (segs c) =
      if overlapsExisting (st_ledger st) (leftHeavy x y dx dy axis l) then []
      else [leftHeavy x y dx dy axis l].
Proof.
  intros Hrows%is_board_has_rows Hin Hv Hd Hl Hr Htotal.
  destruct (probed_spec _ _ _ Hv) as (b1 & Hp & Hlen).
  assert (Hrows1 : has_rows (st_board (probed st x y))).
  { rewrite Hp. unfold has_rows in *. cbn. lia. }
  destruct (unit_step_DIRS dx dy (elemAt_In _ _ _ Hd)) as [Hpos Hneg].
  pose proof (scan_from_neighbour _ x y _ _ Hneg Hrows1 Hin) as [HL _].
  pose proof (scan_from_neighbour _ x y _ _ Hpos Hrows1 Hin) as [HR _].
  change (x + - dx) with (x - dx) in HL. change (y + - dy) with (y - dy) in HL.
  assert (El : runLen (probed st x y) (x - dx) (y - dy) (- dx) (- dy) = l)
    by (unfold runLen; by rewrite Hl).
  assert (Er : runLen (probed st x y) (x + dx) (y + dy) dx dy = r)
    by (unfold runLen; by rewrite Hr).
  rewrite El in HL. rewrite Er in HR.
  destruct (axisWindows_total_five (st_ledger st) x y dx dy axis l r HL HR Htotal)
    as [Heq Hone].
  split; [done|].
  destruct (lines_empty st x y Hrows Hin Hv) as [_ Hres].
  eexists. split; [exact Hres|]. cbn [segs].
  rewrite (onAxis_axesWindows _ _ _ _ _ _ Hd). unfold axisOf. cbn [fst snd].
  by rewrite El, Er.
Qed.

Lemma windows_coincide_at_total_five_witness :
  leftHeavy 10 8 1 0 0 4 = rightHeavy 10 8 1 0 0 0 /\
  exists c,
    result (linesCreatedIfPlaced 10 8 (mkStore scenarioA_board [])) = Ret c /\
    onAxis 0 (segs c) =
      if overlapsExisting [] (leftHeavy 10 8 1 0 0 4) then []
      else [leftHeavy 10 8 1 0 0 4].
Proof.
  apply (windows_coincide_at_total_five (mkStore scenarioA_board []) 10 8 0 1 0 4 0).
  - by_evaluation.
  - reflexivity.
  - by vm_compute.
  - reflexivity.
  - by vm_compute.
  - by vm_compute.
  - reflexivity.
Defined.

(** C3, as stated, fails: in Scenario B the placed cell (10,8) has four
    dots on each side (L = R = 4, total = 9); the left-heavy candidate is
    (6,8)..(10,8), the right-heavy one (10,8)..(14,8), and both are
    returned. *)
Lemma equal_runs_give_two_windows : ~ equal_runs_give_one_window.
Proof.
  intros H.
  destruct (H (mkStore scenarioB_board []) 10 8 0 1 0 4 4
              (mkCreated 2 [leftHeavy 10 8 1 0 0 4; rightHeavy 10 8 1 0 0 4]))
    as [Heq Hone].
  - by_evaluation.
  - reflexivity.
  - by vm_compute.
  - reflexivity.
  - by vm_compute.
  - by vm_compute.
  - reflexivity.
  - lia.
  - by vm_compute.
  - vm_compute in Hone. discriminate.
Qed.

(** ** Boards given cell by cell *)

Lemma gridOf_row f (i : nat) :
  (i < Z.to_nat N)%nat ->
  gridOf f !! i = Some (map (fun x => JNum (f x (Z.of_nat i))) (seqZ 0 N)).
Proof.
  intros Hi. unfold gridOf. rewrite list_lookup_fmap, lookup_seqZ_lt by lia.
  cbn. by rewrite Z.add_0_l.
Qed.

Lemma is_board_gridOf f : is_board (gridOf f).
Proof.
  unfold is_board, gridOf. split.
  - by rewrite length_map, length_seqZ.
  - apply Forall_forall. intros row (y & -> & _)%list_elem_of_fmap.
    by rewrite length_map, length_seqZ.
Qed.

Lemma getCell_gridOf f x y :
  inside x y = true -> getCell (gridOf f) x y = Ret (JNum (f x y)).
Proof.
  intros [Hx Hy]%inside_spec. unfold getCell, elemAt.
  destruct (Z.leb_spec 0 y); [|lia]. rewrite gridOf_row by lia.
  destruct (Z.leb_spec 0 x); [|lia].
  rewrite list_lookup_fmap, lookup_seqZ_lt by lia. cbn.
  by rewrite !Z2Nat.id by lia.
Qed.

(** A board is determined by the numbers in its cells. *)
Lemma board_is_gridOf b f :
  is_board b ->
  (forall x y, inside x y = true -> getCell b x y = Ret (JNum (f x y))) ->
  b = gridOf f.
Proof.
  intros [Hlen Hrows] Hcells. apply list_eq. intros i.
  destruct (decide (i < Z.to_nat N)%nat) as [Hi|Hi].
  - rewrite gridOf_row by done.
    destruct (lookup_lt_is_Some_2 b i) as [row Hrow]; [lia|].
    rewrite Hrow. f_equal. apply list_eq. intros j.
    rewrite Forall_lookup in Hrows. pose proof (Hrows _ _ Hrow) as Hlrow.
    destruct (decide (j < Z.to_nat N)%nat) as [Hj|Hj].
    + rewrite list_lookup_fmap, lookup_seqZ_lt by lia. cbn.
      destruct (lookup_lt_is_Some_2 row j) as [v Hv]; [lia|].
      specialize (Hcells (Z.of_nat j) (Z.of_nat i)).
      unfold getCell, elemAt in Hcells.
      destruct (Z.leb_spec 0 (Z.of_nat i)); [|lia].
      destruct (Z.leb_spec 0 (Z.of_nat j)); [|lia].
      rewrite !Nat2Z.id, Hrow, Hv in Hcells. cbn in Hcells.
      rewrite Hv. f_equal. apply Ret_inj. apply Hcells.
      apply inside_spec. lia.
    + rewrite (lookup_ge_None_2 row) by lia.
      symmetry. apply lookup_ge_None_2. rewrite length_map, length_seqZ. lia.
  - rewrite (lookup_ge_None_2 b) by lia.
    symmetry. apply lookup_ge_None_2.
    unfold gridOf. rewrite length_map, length_seqZ. lia.
Qed.

(** ** A nine-long run *)

(** Every placement of Scenario E that fits on the grid, on each of the
    four axes, evaluates to the two windows. *)
Lemma nineRun_all :
  forallb (fun axis =>
    forallb (fun x =>
      forallb (fun y =>
        match nineRunResult axis x y with
        | Some (got, want) => bool_decide (got = want)
        | None => true
        end) (seqZ 0 N)) (seqZ 0 N)) (seqZ 0 4) = true.
Proof. by vm_compute. Qed.

(** C2. On a board whose occupied cells are exactly the four cells on
    each side of an empty cell along one axis (a nine-long run around
    the cell), with an empty ledger, the evaluation at that cell returns
    count 2 and the two windows of that axis, the left-heavy one first:
    the five cells ending at the placed cell and the five starting at
    it. *)
Theorem nine_run_scores_twice b axis dx dy x y :
  is_board b ->
  elemAt DIRS axis = Some (dx, dy) ->
  inside (x - 4 * dx) (y - 4 * dy) = true ->
  inside (x + 4 * dx) (y + 4 * dy) = true ->
  (forall cx cy, inside cx cy = true ->
     getCell b cx cy = Ret (JNum (if onRun x y dx dy cx cy then 1 else 0))) ->
  result (linesCreatedIfPlaced x y (mkStore b [])) =
  Ret (mkCreated 2 [leftHeavy x y dx dy axis 4; rightHeavy x y dx dy axis 4]).
Proof.
  intros Hb Hd Hlo Hhi Hcells.
  rewrite (board_is_gridOf b _ Hb Hcells).
  destruct (unit_step_DIRS dx dy (elemAt_In _ _ _ Hd)) as [(Hdx & Hdy & _) _].
  pose proof (elemAt_bound _ _ _ Hd) as Ha. cbn in Ha.
  pose proof Hlo as [Hlx Hly]%inside_spec.
  pose proof Hhi as [Hhx Hhy]%inside_spec.
  assert (Haxis : In axis (seqZ 0 4)) by (in_seqZ).
  assert (Hx : In x (seqZ 0 N)) by (in_seqZ).
  assert (Hy : In y (seqZ 0 N)) by (in_seqZ).
  pose proof (proj1 (forallb_forall _ _) nineRun_all axis Haxis) as H1.
  pose proof (proj1 (forallb_forall _ _) H1 x Hx) as H2.
  pose proof (proj1 (forallb_forall _ _) H2 y Hy) as H3.
  cbv beta in H3. unfold nineRunResult in H3.
  rewrite Hd, Hlo, Hhi in H3. cbv beta iota delta [andb] in H3.
  apply bool_decide_eq_true in H3. exact H3.
Qed.

Lemma nine_run_scores_twice_witness :
  result (linesCreatedIfPlaced 10 8 (mkStore scenarioB_board [])) =
  Ret (mkCreated 2 [leftHeavy 10 8 1 0 0 4; rightHeavy 10 8 1 0 0 4]).
Proof.
  apply (nine_run_scores_twice scenarioB_board 0 1 0 10 8).
  - by_evaluation.
  - reflexivity.
  - reflexivity.
  - reflexivity.
  - intros cx cy [Hx Hy]%inside_spec.
    assert (Hall : Forall (fun cx => Forall (fun cy =>
              getCell scenarioB_board cx cy =
              Ret (JNum (if onRun 10 8 1 0 cx cy then 1 else 0)))
              (seqZ 0 N)) (seqZ 0 N)).
    { by_evaluation. }
    rewrite Forall_forall in Hall. specialize (Hall cx).
    rewrite Forall_forall in Hall. apply Hall; apply elem_of_seqZ; lia.
Defined.

(** ** Seeding *)

Lemma seedCell_spec b x y :
  is_board b ->
  exists b', seedCell b x y = Ret b' /\ is_board b' /\
    forall x' y', getCell b' x' y' =
      if inside x y && ((x' =? x) && (y' =? y)) then Ret (JNum 1)
      else getCell b x' y'.
Proof.
  intros Hb. unfold seedCell. destruct (inside x y) eqn:Hin.
  - destruct (is_board_slot b x y Hb Hin) as (row & w & Hrow & Hw).
    pose proof (setCell_present b x y 1 row w Hrow Hw) as Hset.
    eexists. split; [exact Hset|].
    split; [by apply (setCell_is_board b x y 1)|].
    intros x' y'. by apply getCell_setCell.
  - exists b. do 2 (split; [done|]). done.
Qed.

Lemma seedRow_spec ry dxs : forall b,
  is_board b ->
  exists b', seedRow b ry dxs = Ret b' /\ is_board b' /\
    forall x' y', inside x' y' = true ->
      getCell b' x' y' =
        if (y' =? ry) && existsb (fun dx => x' =? CENTER + dx) dxs
        then Ret (JNum 1) else getCell b x' y'.
Proof.
  induction dxs as [|dx dxs IH]; intros b Hb.
  - exists b. do 2 (split; [done|]). intros x' y' _. by rewrite andb_false_r.
  - destruct (seedCell_spec b (CENTER + dx) ry Hb) as (b1 & Hb1 & Hok1 & Hget1).
    destruct (IH b1 Hok1) as (b' & Hb' & Hok' & Hget').
    exists b'. split; [cbn [seedRow]; by rewrite Hb1|]. split; [done|].
    intros x' y' Hin. rewrite (Hget' x' y' Hin), Hget1. cbn [existsb].
    destruct (Z.eqb_spec y' ry) as [->|]; cbn.
    2:{ by rewrite !andb_false_r. }
    destruct (Z.eqb_spec x' (CENTER + dx)) as [->|]; cbn.
    + rewrite Hin. cbn. by destruct (existsb _ dxs).
    + by rewrite !andb_false_r.
Qed.

Lemma seedColumn_spec cx dys : forall b,
  is_board b ->
  exists b', seedColumn b cx dys = Ret b' /\ is_board b' /\
    forall x' y', inside x' y' = true ->
      getCell b' x' y' =
        if (x' =? cx) && existsb (fun dy => y' =? CENTER + dy) dys
        then Ret (JNum 1) else getCell b x' y'.
Proof.
  induction dys as [|dy dys IH]; intros b Hb.
  - exists b. do 2 (split; [done|]). intros x' y' _. by rewrite andb_false_r.
  - destruct (seedCell_spec b cx (CENTER + dy) Hb) as (b1 & Hb1 & Hok1 & Hget1).
    destruct (IH b1 Hok1) as (b' & Hb' & Hok' & Hget').
    exists b'. split; [cbn [seedColumn]; by rewrite Hb1|]. split; [done|].
    intros x' y' Hin. rewrite (Hget' x' y' Hin), Hget1. cbn [existsb].
    destruct (Z.eqb_spec x' cx) as [->|]; cbn; [|by rewrite !andb_false_r].
    destruct (Z.eqb_spec y' (CENTER + dy)) as [->|]; cbn.
    + rewrite Hin. cbn. by destruct (existsb _ dys).
    + by rewrite !andb_false_r.
Qed.

(** The offsets the two loops run over reach the cells from
    [CENTER - halfLeft] to [CENTER + halfRight]. *)
Lemma existsb_steps v lo len :
  existsb (fun d => v =? CENTER + d) (seqZ lo len)
  = (CENTER + lo <=? v) && (v <=? CENTER + lo + len - 1).
Proof.
  apply eq_true_iff_eq. rewrite existsb_exists, andb_true_iff, !Z.leb_le. split.
  - intros (d & Hd%list_elem_of_In%elem_of_seqZ & ->%Z.eqb_eq). lia.
  - intros [Hlo Hhi]. exists (v - CENTER). split; [|apply Z.eqb_eq; lia].
    in_seqZ.
Qed.

Lemma seedCross_spec length :
  exists b, seedCross length makeEmptyBoard = Ret b /\ is_board b /\
    forall x y, inside x y = true ->
      getCell b x y = Ret (JNum (if inCross length x y then 1 else 0)).
Proof.
  unfold seedCross. rewrite clone_id.
  set (hl := (length - 1) / 2). set (hr := length - 1 - hl).
  set (steps := seqZ (- hl) (hr + hl + 1)).
  destruct (seedRow_spec CENTER steps makeEmptyBoard) as (b1 & E1 & Hb1 & G1);
    [auto with board|].
  destruct (seedRow_spec (CENTER + 1) steps _ Hb1) as (b2 & E2 & Hb2 & G2).
  destruct (seedColumn_spec CENTER steps _ Hb2) as (b3 & E3 & Hb3 & G3).
  destruct (seedColumn_spec (CENTER + 1) steps _ Hb3) as (b4 & E4 & Hb4 & G4).
  exists b4. split; [|split; [done|]].
  { rewrite E1. cbn. rewrite E2. cbn. rewrite E3. cbn. exact E4. }
  intros x y Hin. rewrite (G4 x y Hin), (G3 x y Hin), (G2 x y Hin), (G1 x y Hin).
  assert (E0 : getCell makeEmptyBoard x y = Ret (JNum 0)).
  { change makeEmptyBoard with (gridOf (fun _ _ => 0)). by apply getCell_gridOf. }
  rewrite E0. unfold steps. rewrite !existsb_steps.
  unfold inCross. fold hl hr.
  replace (CENTER + - hl) with (CENTER - hl) by lia.
  replace (CENTER - hl + (hr + hl + 1) - 1) with (CENTER + hr) by lia.
  destruct (y =? CENTER), (y =? CENTER + 1), (x =? CENTER), (x =? CENTER + 1),
    (CENTER - hl <=? x), (x <=? CENTER + hr),
    (CENTER - hl <=? y), (y <=? CENTER + hr); reflexivity.
Qed.

(** C7. On the 21 x 21 board with lines of 8, [seedInitialCross] applied
    to the empty board returns a board on which exactly the cells of the
    rows 10 and 11 with x in 7..14 and of the columns 10 and 11 with y in
    7..14 hold 1, and every other cell holds 0.  A coordinate outside the
    board is skipped by the guard of the store, whatever the board is;
    and for every line length the seeding of the empty board returns
    normally, with exactly the cells of the cross that lie on the board
    set. *)
Theorem seeding_is_the_cross :
  (exists b, seedInitialCross makeEmptyBoard = Ret b /\ is_board b /\
     forall x y, inside x y = true ->
       getCell b x y = Ret (JNum (if crossCell x y then 1 else 0))) /\
  (forall b x y, inside x y = false -> seedCell b x y = Ret b) /\
  (forall length, exists b,
     seedCross length makeEmptyBoard = Ret b /\ is_board b /\
     forall x y, inside x y = true ->
       getCell b x y = Ret (JNum (if inCross length x y then 1 else 0))).
Proof.
  split; [|split].
  - destruct (seedCross_spec 8) as (b & Hb & Hok & Hget).
    exists b. do 2 (split; [done|]). intros x y Hin. by rewrite (Hget x y Hin).
  - intros b x y Hout. unfold seedCell. by rewrite Hout.
  - apply seedCross_spec.
Qed.

(** * Further properties of the engine *)

(** ** What the loops count *)

Lemma strictEq_true v n : strictEq v n = true <-> v = JNum n.
Proof.
  destruct v as [|m]; cbn; [split; discriminate|].
  rewrite Z.eqb_eq. split; congruence.
Qed.

Lemma strictEq_false v n : strictEq v n = false <-> v <> JNum n.
Proof.
  rewrite <- strictEq_true. destruct (strictEq v n); split; congruence.
Qed.

(** The cells a loop has passed hold 1, and the cell it stopped at is off
    the grid or does not hold 1. *)
Lemma scan_run fuel : forall rx ry sx sy n st k,
  result (scan fuel rx ry sx sy n st) = Ret k ->
  n <= k /\
  (forall j, 0 <= j < k - n ->
     inside (rx + j * sx) (ry + j * sy) = true /\
     getCell (st_board st) (rx + j * sx) (ry + j * sy) = Ret (JNum 1)) /\
  (inside (rx + (k - n) * sx) (ry + (k - n) * sy) = false \/
   exists v, getCell (st_board st) (rx + (k - n) * sx) (ry + (k - n) * sy) = Ret v
             /\ v <> JNum 1).
Proof.
  induction fuel as [|fuel IH]; intros rx ry sx sy n st k; cbn [scan]; [done|].
  destruct (inside rx ry) eqn:Hin.
  - intros (v & Hv & Hk)%bind_Ret_inv. cbn in Hv, Hk.
    destruct (strictEq v 1) eqn:Hocc.
    + apply strictEq_true in Hocc as ->.
      destruct (IH _ _ _ _ _ _ _ Hk) as (Hle & Hrun & Hstop).
      split; [lia|]. split.
      * intros j Hj. destruct (decide (j = 0)) as [->|Hj0].
        -- by rewrite !Z.mul_0_l, !Z.add_0_r.
        -- destruct (Hrun (j - 1)) as [H1 H2]; [lia|].
           replace (rx + sx + (j - 1) * sx) with (rx + j * sx) in H1, H2 by ring.
           replace (ry + sy + (j - 1) * sy) with (ry + j * sy) in H1, H2 by ring.
           done.
      * replace (rx + sx + (k - (n + 1)) * sx) with (rx + (k - n) * sx)
          in Hstop by ring.
        replace (ry + sy + (k - (n + 1)) * sy) with (ry + (k - n) * sy)
          in Hstop by ring.
        done.
    + injection Hk as <-. split; [lia|]. split; [intros j Hj; lia|].
      right. exists v. rewrite Z.sub_diag, !Z.mul_0_l, !Z.add_0_r.
      split; [done | by apply strictEq_false].
  - intros [= <-]. split; [lia|]. split; [intros j Hj; lia|].
    left. by rewrite Z.sub_diag, !Z.mul_0_l, !Z.add_0_r.
Qed.

(** The loop started next to a cell counts the run of dots beside it. *)
Lemma scan_counts_run st x y sx sy :
  is_board (st_board st) -> inside x y = true -> unit_step sx sy ->
  exists l,
    result (scan scanFuel (x + sx) (y + sy) sx sy 0 st) = Ret l /\
    0 <= l /\
    (forall k, 1 <= k <= l ->
       inside (x + k * sx) (y + k * sy) = true /\
       getCell (st_board st) (x + k * sx) (y + k * sy) = Ret (JNum 1)) /\
    (inside (x + (l + 1) * sx) (y + (l + 1) * sy) = false \/
     exists v, getCell (st_board st) (x + (l + 1) * sx) (y + (l + 1) * sy) = Ret v
               /\ v <> JNum 1).
Proof.
  intros Hb%is_board_has_rows Hin Hstep.
  destruct (scan_from_neighbour st x y sx sy Hstep Hb Hin) as [Hl [_ Hr]].
  exists (runLen st (x + sx) (y + sy) sx sy). split; [done|]. split; [done|].
  destruct (scan_run _ _ _ _ _ _ _ _ Hr) as (_ & Hrun & Hstop).
  rewrite Z.sub_0_r in Hrun, Hstop. split.
  - intros k Hk. destruct (Hrun (k - 1)) as [H1 H2]; [lia|].
    replace (x + sx + (k - 1) * sx) with (x + k * sx) in H1, H2 by ring.
    replace (y + sy + (k - 1) * sy) with (y + k * sy) in H1, H2 by ring.
    done.
  - set (l := runLen st (x + sx) (y + sy) sx sy) in *.
    replace (x + sx + l * sx) with (x + (l + 1) * sx) in Hstop by ring.
    replace (y + sy + l * sy) with (y + (l + 1) * sy) in Hstop by ring.
    done.
Qed.

(** X1. On a board, from a cell of the grid and along each of the eight
    walking directions, the run-counting loop returns the number [l] of
    consecutive cells holding 1 that start next to the cell: the cells
    at distance 1 to [l] are on the grid and hold 1, and the cell at
    distance [l + 1] is off the grid or holds something else. *)
Theorem loop_counts_the_run st x y sx sy :
  is_board (st_board st) -> inside x y = true -> unit_step sx sy ->
  exists l,
    result (scan scanFuel (x + sx) (y + sy) sx sy 0 st) = Ret l /\
    0 <= l /\
    (forall k, 1 <= k <= l ->
       inside (x + k * sx) (y + k * sy) = true /\
       getCell (st_board st) (x + k * sx) (y + k * sy) = Ret (JNum 1)) /\
    (inside (x + (l + 1) * sx) (y + (l + 1) * sy) = false \/
     exists v, getCell (st_board st) (x + (l + 1) * sx) (y + (l + 1) * sy) = Ret v
               /\ v <> JNum 1).
Proof. exact (scan_counts_run st x y sx sy). Qed.

Lemma loop_counts_the_run_witness :
  exists l,
    result (scan scanFuel (10 + -1) (8 + 0) (-1) 0 0 (mkStore scenarioA_board []))
      = Ret l /\
    0 <= l /\
    (forall k, 1 <= k <= l ->
       inside (10 + k * -1) (8 + k * 0) = true /\
       getCell scenarioA_board (10 + k * -1) (8 + k * 0) = Ret (JNum 1)) /\
    (inside (10 + (l + 1) * -1) (8 + (l + 1) * 0) = false \/
     exists v, getCell scenarioA_board (10 + (l + 1) * -1) (8 + (l + 1) * 0) = Ret v
               /\ v <> JNum 1).
Proof.
  apply (loop_counts_the_run (mkStore scenarioA_board []) 10 8 (-1) 0).
  - by_evaluation.
  - reflexivity.
  - unfold unit_step. lia.
Defined.

(** ** The windows an evaluation returns *)

Lemma axisWindows_members ex segs x y dx dy axis l r w :
  0 <= l -> 0 <= r ->
  In w (axisWindows ex segs x y dx dy axis l r) ->
  In w segs \/
  exists tl tr,
    w = window x y dx dy axis tl tr /\
    0 <= tl <= l /\ 0 <= tr <= r /\ tl + tr = 4 /\
    overlapsExisting ex w = false.
Proof.
  intros Hl Hr. unfold axisWindows, leftHeavy, rightHeavy.
  destruct (5 <=? l + 1 + r); [|by left].
  set (P := fun w => In w segs \/
    exists tl tr, w = window x y dx dy axis tl tr /\
      0 <= tl <= l /\ 0 <= tr <= r /\ tl + tr = 4 /\
      overlapsExisting ex w = false).
  assert (HA : forall w,
    In w (if 4 - Z.min 4 l <=? r
          then pushIfUnique ex segs (window x y dx dy axis (Z.min 4 l) (4 - Z.min 4 l))
          else segs) -> P w).
  { destruct (Z.leb_spec (4 - Z.min 4 l) r); [|by left].
    apply pushIfUnique_inv; [by left|]. intros Hov. right.
    exists (Z.min 4 l), (4 - Z.min 4 l). repeat split; try done; lia. }
  revert w. destruct (Z.leb_spec (4 - Z.min 4 r) l); [|done].
  apply pushIfUnique_inv; [done|]. intros Hov. right.
  exists (4 - Z.min 4 r), (Z.min 4 r). repeat split; try done; lia.
Qed.

Lemma axesWindows_members ex st x y dirs : forall axis segs w,
  In w (axesWindows ex st x y dirs axis segs) ->
  In w segs \/
  exists (i : nat) dx dy tl tr,
    dirs !! i = Some (dx, dy) /\
    w = window x y dx dy (axis + Z.of_nat i) tl tr /\
    0 <= tl <= runLen st (x - dx) (y - dy) (- dx) (- dy) /\
    0 <= tr <= runLen st (x + dx) (y + dy) dx dy /\
    tl + tr = 4 /\
    overlapsExisting ex w = false.
Proof.
  induction dirs as [|[dx dy] rest IH]; intros axis segs w; [by left|].
  cbn [axesWindows]. intros [Hw|(i & dx' & dy' & tl & tr & Hi & Hrest)]%IH.
  - apply axisWindows_members in Hw as [Hw|(tl & tr & Hw)];
      [by left| |apply runLen_nonneg..].
    right. exists 0%nat, dx, dy, tl, tr. by rewrite Z.add_0_r.
  - right. exists (S i), dx', dy', tl, tr. split; [done|].
    by replace (axis + Z.of_nat (S i)) with (axis + 1 + Z.of_nat i) by lia.
Qed.

(** The cells of a window lie at the offsets [-takeLeft .. takeRight]
    from the placed cell. *)
Lemma window_cells_offsets x y dx dy axis tl tr cl :
  tl + tr = 4 ->
  In cl (cells (window x y dx dy axis tl tr)) ->
  exists m, - tl <= m <= tr /\ cl = mkCell (x + m * dx) (y + m * dy).
Proof.
  intros Hsum. cbn [window cells]. unfold windowCells.
  intros (k & <- & Hk%list_elem_of_In%elem_of_seqZ)%in_map_iff.
  exists (k - tl). split; [lia|]. f_equal; ring.
Qed.

(** The shape and the content of a returned window. *)
Lemma windows_are_fives st x y c w :
  is_board (st_board st) ->
  result (linesCreatedIfPlaced x y st) = Ret c -> In w (segs c) ->
  exists dx dy,
    elemAt DIRS (axisId w) = Some (dx, dy) /\
    cells w = map (fun k => mkCell (x1 w + dx * k) (y1 w + dy * k)) (seqZ 0 5) /\
    x2 w = x1 w + 4 * dx /\ y2 w = y1 w + 4 * dy /\
    In (mkCell x y) (cells w) /\
    (forall cl, In cl (cells w) ->
       inside (cell_x cl) (cell_y cl) = true /\
       (cl = mkCell x y \/
        getCell (st_board st) (cell_x cl) (cell_y cl) = Ret (JNum 1))) /\
    overlapsExisting (st_ledger st) w = false.
Proof.
  intros Hb Hc Hw. pose proof (is_board_has_rows _ Hb) as Hrows.
  destruct (lines_cases _ _ _ _ Hrows Hc) as [->|(Hin & Hv & ->)]; [by destruct Hw|].
  cbn [segs] in Hw.
  apply axesWindows_members in Hw
    as [[]|(i & dx & dy & tl & tr & Hi & -> & Htl & Htr & Hsum & Hov)].
  assert (Hd : elemAt DIRS (0 + Z.of_nat i) = Some (dx, dy)).
  { apply elemAt_Some. split; [lia|]. by rewrite Z.add_0_l, Nat2Z.id. }
  destruct (unit_step_DIRS dx dy (elemAt_In _ _ _ Hd)) as [Hpos Hneg].
  destruct (probe_undo _ _ _ Hv) as (b1 & Hset & _ & Hlen).
  assert (Hp : probed st x y = mkStore b1 (st_ledger st)).
  { unfold probed, writeCell. by rewrite Hset. }
  assert (Hb1 : is_board b1) by (by apply (setCell_is_board _ x y 1 _ Hb Hin)).
  assert (Hread : forall cx cy, getCell b1 cx cy = Ret (JNum 1) ->
            mkCell cx cy = mkCell x y \/ getCell (st_board st) cx cy = Ret (JNum 1)).
  { intros cx cy. rewrite (getCell_setCell _ _ _ _ _ cx cy Hb Hin Hset).
    destruct (Z.eqb_spec cx x) as [->|]; [|by right].
    destruct (Z.eqb_spec cy y) as [->|]; [by left | by right]. }
  destruct (scan_counts_run (mkStore b1 (st_ledger st)) x y dx dy)
    as (r & Hr & _ & Hright & _); [done..|].
  destruct (scan_counts_run (mkStore b1 (st_ledger st)) x y (- dx) (- dy))
    as (l & Hl & _ & Hleft & _); [done..|].
  rewrite Hp in Htl, Htr. unfold runLen in Htl, Htr.
  change (x - dx) with (x + - dx) in Htl. change (y - dy) with (y + - dy) in Htl.
  rewrite Hl in Htl. rewrite Hr in Htr. cbn [st_board] in Hleft, Hright.
  exists dx, dy. split; [done|]. split; [done|]. cbn [window x1 y1 x2 y2].
  split; [lia|]. split; [lia|].
  split; [apply window_has_cell; lia|]. split; [|done].
  intros cl (m & Hm & ->)%window_cells_offsets; [|done]. cbn [cell_x cell_y].
  destruct (Z.lt_trichotomy m 0) as [Hneg0|[->|Hpos0]].
  - destruct (Hleft (- m)) as [H1 H2]; [lia|].
    replace (x + - m * - dx) with (x + m * dx) in H1, H2 by ring.
    replace (y + - m * - dy) with (y + m * dy) in H1, H2 by ring.
    split; [done | by apply Hread].
  - rewrite !Z.mul_0_l, !Z.add_0_r. split; [done | by left].
  - destruct (Hright m) as [H1 H2]; [lia|]. split; [done | by apply Hread].
Qed.

(** X2. Every window an evaluation at an empty cell returns is a genuine
    five: it lies on one of the four axes, its five cells start at
    [(x1, y1)], advance by the axis direction and end at [(x2, y2)]; all
    of them are on the grid; one of them is the placed cell and the
    others hold a dot on the board; and it shares no cell with a ledger
    entry of its axis. *)
Theorem returned_windows_are_fives st x y c w :
  is_board (st_board st) ->
  result (linesCreatedIfPlaced x y st) = Ret c -> In w (segs c) ->
  exists dx dy,
    elemAt DIRS (axisId w) = Some (dx, dy) /\
    cells w = map (fun k => mkCell (x1 w + dx * k) (y1 w + dy * k)) (seqZ 0 5) /\
    x2 w = x1 w + 4 * dx /\ y2 w = y1 w + 4 * dy /\
    In (mkCell x y) (cells w) /\
    (forall cl, In cl (cells w) ->
       inside (cell_x cl) (cell_y cl) = true /\
       (cl = mkCell x y \/
        getCell (st_board st) (cell_x cl) (cell_y cl) = Ret (JNum 1))) /\
    overlapsExisting (st_ledger st) w = false.
Proof. exact (windows_are_fives st x y c w). Qed.

Lemma returned_windows_are_fives_witness :
  exists dx dy,
    elemAt DIRS (axisId (leftHeavy 10 8 1 0 0 4)) = Some (dx, dy) /\
    cells (leftHeavy 10 8 1 0 0 4) =
      map (fun k => mkCell (x1 (leftHeavy 10 8 1 0 0 4) + dx * k)
                           (y1 (leftHeavy 10 8 1 0 0 4) + dy * k)) (seqZ 0 5) /\
    x2 (leftHeavy 10 8 1 0 0 4) = x1 (leftHeavy 10 8 1 0 0 4) + 4 * dx /\
    y2 (leftHeavy 10 8 1 0 0 4) = y1 (leftHeavy 10 8 1 0 0 4) + 4 * dy /\
    In (mkCell 10 8) (cells (leftHeavy 10 8 1 0 0 4)) /\
    (forall cl, In cl (cells (leftHeavy 10 8 1 0 0 4)) ->
       inside (cell_x cl) (cell_y cl) = true /\
       (cl = mkCell 10 8 \/
        getCell scenarioB_board (cell_x cl) (cell_y cl) = Ret (JNum 1))) /\
    overlapsExisting [] (leftHeavy 10 8 1 0 0 4) = false.
Proof.
  apply (returned_windows_are_fives (mkStore scenarioB_board []) 10 8
           (mkCreated 2 [leftHeavy 10 8 1 0 0 4; rightHeavy 10 8 1 0 0 4])).
  - by_evaluation.
  - by vm_compute.
  - by left.
Defined.

(** ** When a placement is legal *)

(** An axis yields a window exactly when the run through the placed cell
    has five cells or more and one of its two candidates is free.  (The
    tests [takeRightA <= r] and [takeLeftB <= l] of the source hold
    whenever [total >= 5].) *)
Lemma axisWindows_nonempty ex x y dx dy axis l r :
  0 <= l -> 0 <= r ->
  axisWindows ex [] x y dx dy axis l r <> [] <->
  5 <= l + 1 + r /\
  (overlapsExisting ex (leftHeavy x y dx dy axis l) = false \/
   overlapsExisting ex (rightHeavy x y dx dy axis r) = false).
Proof.
  intros Hl Hr. unfold axisWindows.
  destruct (Z.leb_spec 5 (l + 1 + r)) as [Htot|Htot]; [|split; [done | lia]].
  destruct (Z.leb_spec (4 - Z.min 4 l) r); [|lia].
  destruct (Z.leb_spec (4 - Z.min 4 r) l); [|lia].
  unfold pushIfUnique at 2.
  destruct (overlapsExisting ex (leftHeavy x y dx dy axis l)) eqn:HovL; cbn [existsb].
  - unfold pushIfUnique.
    destruct (overlapsExisting ex (rightHeavy x y dx dy axis r)); cbn [existsb].
    + split; [done | intros [_ [|]]; done].
    + cbn [app]. split; [intros _; split; [done | by right] | done].
  - split; [intros _; split; [done | by left]|]. intros _.
    unfold pushIfUnique.
    destruct (overlapsExisting ex (rightHeavy x y dx dy axis r)); [done|].
    by destruct (existsb _ _).
Qed.

(** X3. An empty cell of a board is a legal placement exactly when, on
    one of the four axes, the dots next to it on the two sides together
    with the cell make a run of at least five and the left-heavy or the
    right-heavy window of that axis shares no cell with a ledger entry of
    the axis. *)
Theorem legal_iff_free_five st x y :
  is_board (st_board st) ->
  inside x y = true -> getCell (st_board st) x y = Ret (JNum 0) ->
  legalAt st x y <->
  exists axis dx dy l r,
    elemAt DIRS axis = Some (dx, dy) /\
    result (scan scanFuel (x - dx) (y - dy) (- dx) (- dy) 0 (probed st x y)) = Ret l /\
    result (scan scanFuel (x + dx) (y + dy) dx dy 0 (probed st x y)) = Ret r /\
    5 <= l + 1 + r /\
    (overlapsExisting (st_ledger st) (leftHeavy x y dx dy axis l) = false \/
     overlapsExisting (st_ledger st) (rightHeavy x y dx dy axis r) = false).
Proof.
  intros Hb Hin Hv. pose proof (is_board_has_rows _ Hb) as Hrows.
  destruct (probed_spec _ _ _ Hv) as (b1 & Hp & Hlen).
  assert (Hrows1 : has_rows (st_board (probed st x y))).
  { rewrite Hp. unfold has_rows in *. cbn. lia. }
  destruct (lines_empty st x y Hrows Hin Hv) as [Hf Hres].
  set (all := axesWindows (st_ledger st) (probed st x y) x y DIRS 0 []) in *.
  assert (Hlegal : legalAt st x y <-> all <> []).
  { unfold legalAt. split.
    - intros (_ & _ & c & Hc & Hpos). rewrite Hres in Hc. injection Hc as <-.
      cbn [count] in Hpos. intros E. rewrite E in Hpos. cbn in Hpos. lia.
    - intros Hne. do 2 (split; [done|]). eexists. split; [exact Hres|].
      cbn [count]. destruct all; [done | cbn [length]; lia]. }
  assert (Hruns : forall dx dy, In (dx, dy) DIRS ->
    result (scan scanFuel (x - dx) (y - dy) (- dx) (- dy) 0 (probed st x y))
      = Ret (runLen (probed st x y) (x - dx) (y - dy) (- dx) (- dy)) /\
    result (scan scanFuel (x + dx) (y + dy) dx dy 0 (probed st x y))
      = Ret (runLen (probed st x y) (x + dx) (y + dy) dx dy)).
  { intros dx dy [Hpos Hneg]%unit_step_DIRS. split.
    - change (x - dx) with (x + - dx). change (y - dy) with (y + - dy).
      by destruct (scan_from_neighbour _ x y _ _ Hneg Hrows1 Hin) as [_ [_ ?]].
    - by destruct (scan_from_neighbour _ x y _ _ Hpos Hrows1 Hin) as [_ [_ ?]]. }
  rewrite Hlegal. split.
  - intros Hne. destruct all as [|w rest] eqn:Hall; [done|].
    assert (Hw : In w all) by (rewrite Hall; by left).
    pose proof Hw as Hw'. unfold all in Hw'.
    apply axesWindows_members in Hw'
      as [[]|(i & dx & dy & tl & tr & Hi & Ew & _)].
    assert (Hd : elemAt DIRS (axisId w) = Some (dx, dy)).
    { rewrite Ew. cbn [window axisId]. apply elemAt_Some. split; [lia|].
      by rewrite Z.add_0_l, Nat2Z.id. }
    destruct (Hruns dx dy (elemAt_In _ _ _ Hd)) as [HL HR].
    exists (axisId w), dx, dy. do 2 eexists.
    split; [done|]. split; [exact HL|]. split; [exact HR|].
    apply axisWindows_nonempty; [apply runLen_nonneg..|].
    change (axisOf (st_ledger st) (probed st x y) x y (axisId w) (dx, dy) <> []).
    rewrite <- (onAxis_axesWindows _ _ _ _ _ _ Hd). fold all.
    intros E. assert (Hin' : In w (onAxis (axisId w) all)).
    { unfold onAxis. apply filter_In. split; [done | apply Z.eqb_refl]. }
    by rewrite E in Hin'.
  - intros (axis & dx & dy & l & r & Hd & HL & HR & Htot & Hfree).
    destruct (Hruns dx dy (elemAt_In _ _ _ Hd)) as [HL' HR'].
    assert (l = runLen (probed st x y) (x - dx) (y - dy) (- dx) (- dy)) as El
      by congruence.
    assert (r = runLen (probed st x y) (x + dx) (y + dy) dx dy) as Er by congruence.
    assert (Hax : axisOf (st_ledger st) (probed st x y) x y axis (dx, dy) <> []).
    { unfold axisOf. cbn [fst snd]. rewrite <- El, <- Er.
      apply axisWindows_nonempty; [subst; apply runLen_nonneg..|done]. }
    rewrite <- (onAxis_axesWindows _ _ _ _ _ _ Hd) in Hax. fold all in Hax.
    intros E. by rewrite E in Hax.
Qed.

Lemma legal_iff_free_five_witness :
  legalAt (mkStore scenarioA_board []) 10 8 <->
  exists axis dx dy l r,
    elemAt DIRS axis = Some (dx, dy) /\
    result (scan scanFuel (10 - dx) (8 - dy) (- dx) (- dy) 0
              (probed (mkStore scenarioA_board []) 10 8)) = Ret l /\
    result (scan scanFuel (10 + dx) (8 + dy) dx dy 0
              (probed (mkStore scenarioA_board []) 10 8)) = Ret r /\
    5 <= l + 1 + r /\
    (overlapsExisting [] (leftHeavy 10 8 dx dy axis l) = false \/
     overlapsExisting [] (rightHeavy 10 8 dx dy axis r) = false).
Proof.
  apply (legal_iff_free_five (mkStore scenarioA_board []) 10 8).
  - by_evaluation.
  - reflexivity.
  - by vm_compute.
Defined.

(** ** How many windows *)

Lemma pushIfUnique_length ex segs cand :
  (length (pushIfUnique ex segs cand) <= S (length segs))%nat.
Proof.
  unfold pushIfUnique. destruct (overlapsExisting ex cand); [lia|].
  destruct (existsb _ segs); [lia|]. rewrite length_app. cbn. lia.
Qed.

Lemma axisWindows_length ex segs x y dx dy axis l r :
  (length (axisWindows ex segs x y dx dy axis l r) <= 2 + length segs)%nat.
Proof.
  unfold axisWindows. destruct (5 <=? l + 1 + r); [|lia].
  pose proof (pushIfUnique_length ex segs (leftHeavy x y dx dy axis l)) as HA.
  destruct (4 - Z.min 4 l <=? r), (4 - Z.min 4 r <=? l); try lia.
  - etransitivity; [apply pushIfUnique_length | lia].
  - etransitivity; [apply pushIfUnique_length | lia].
Qed.

Lemma axesWindows_length ex st x y dirs : forall axis segs,
  (length (axesWindows ex st x y dirs axis segs)
   <= 2 * length dirs + length segs)%nat.
Proof.
  induction dirs as [|[dx dy] rest IH]; intros axis segs; cbn [axesWindows length];
    [lia|].
  etransitivity; [apply IH|].
  pose proof (axisWindows_length ex segs x y dx dy axis
    (runLen st (x - dx) (y - dy) (- dx) (- dy))
    (runLen st (x + dx) (y + dy) dx dy)). lia.
Qed.

(** A window is pushed only if no window with its key is there: the
    local array never holds a window twice. *)
Lemma pushIfUnique_NoDup ex segs cand :
  NoDup segs -> NoDup (pushIfUnique ex segs cand).
Proof.
  intros Hnd. unfold pushIfUnique. destruct (overlapsExisting ex cand); [done|].
  destruct (existsb _ segs) eqn:He; [done|].
  apply NoDup_app. split; [done|]. split; [|apply NoDup_singleton].
  intros s Hs ->%list_elem_of_singleton.
  assert (existsb (fun s => (key s =? key cand)%string) segs = true); [|congruence].
  apply existsb_exists. exists cand.
  split; [by apply list_elem_of_In | apply String.eqb_refl].
Qed.

Lemma axisWindows_NoDup ex segs x y dx dy axis l r :
  NoDup segs -> NoDup (axisWindows ex segs x y dx dy axis l r).
Proof.
  intros Hnd. unfold axisWindows. destruct (5 <=? l + 1 + r); [|done].
  destruct (4 - Z.min 4 l <=? r), (4 - Z.min 4 r <=? l);
    auto using pushIfUnique_NoDup.
Qed.

Lemma axesWindows_NoDup ex st x y dirs : forall axis segs,
  NoDup segs -> NoDup (axesWindows ex st x y dirs axis segs).
Proof.
  induction dirs as [|[dx dy] rest IH]; intros axis segs Hnd; [done|].
  cbn [axesWindows]. by apply IH, axisWindows_NoDup.
Qed.

Lemma onAxis_axisOf_length ex st x y axis i d :
  (length (onAxis axis (axisOf ex st x y i d))
   <= if (axis =? i)%Z then 2 else 0)%nat.
Proof.
  destruct (Z.eqb_spec axis i) as [->|Hne].
  - rewrite onAxis_same by (intros w; apply axisOf_axis).
    unfold axisOf. etransitivity; [apply axisWindows_length | cbn; lia].
  - rewrite (onAxis_other axis i);
      [done | done | intros w; apply axisOf_axis].
Qed.

(** The count against the list of windows and against the axes. *)
Lemma count_bounds st x y c :
  is_board (st_board st) -> result (linesCreatedIfPlaced x y st) = Ret c ->
  count c = Z.of_nat (length (segs c)) /\
  0 <= count c <= 8 /\
  NoDup (segs c) /\
  forall axis, (length (onAxis axis (segs c)) <= 2)%nat.
Proof.
  intros Hrows%is_board_has_rows Hc.
  destruct (lines_cases _ _ _ _ Hrows Hc) as [->|(_ & _ & ->)].
  { cbn. repeat split; [lia | lia | apply NoDup_nil_2 | intros; lia]. }
  cbn [count segs].
  pose proof (axesWindows_length (st_ledger st) (probed st x y) x y DIRS 0 [])
    as Hlen. cbn [length DIRS] in Hlen.
  split; [done|]. split; [lia|].
  split; [apply axesWindows_NoDup, NoDup_nil_2|].
  intros axis. rewrite axesWindows_DIRS, !onAxis_app, !length_app.
  pose proof (onAxis_axisOf_length (st_ledger st) (probed st x y) x y axis 0 (1, 0)).
  pose proof (onAxis_axisOf_length (st_ledger st) (probed st x y) x y axis 1 (0, 1)).
  pose proof (onAxis_axisOf_length (st_ledger st) (probed st x y) x y axis 2 (1, 1)).
  pose proof (onAxis_axisOf_length (st_ledger st) (probed st x y) x y axis 3 (1, -1)).
  destruct (Z.eqb_spec axis 0), (Z.eqb_spec axis 1), (Z.eqb_spec axis 2),
    (Z.eqb_spec axis 3); lia.
Qed.

(** X4. The count an evaluation returns is the number of windows it
    returns; no window is returned twice; there are at most two on each
    axis and so at most eight in all. *)
Theorem count_is_bounded st x y c :
  is_board (st_board st) -> result (linesCreatedIfPlaced x y st) = Ret c ->
  count c = Z.of_nat (length (segs c)) /\
  0 <= count c <= 8 /\
  NoDup (segs c) /\
  forall axis, (length (onAxis axis (segs c)) <= 2)%nat.
Proof. exact (count_bounds st x y c). Qed.

Lemma count_is_bounded_witness :
  count (mkCreated 2 [leftHeavy 10 8 1 0 0 4; rightHeavy 10 8 1 0 0 4])
    = Z.of_nat (length (segs (mkCreated 2 [leftHeavy 10 8 1 0 0 4;
                                           rightHeavy 10 8 1 0 0 4]))) /\
  0 <= count (mkCreated 2 [leftHeavy 10 8 1 0 0 4; rightHeavy 10 8 1 0 0 4]) <= 8 /\
  NoDup (segs (mkCreated 2 [leftHeavy 10 8 1 0 0 4; rightHeavy 10 8 1 0 0 4])) /\
  forall axis,
    (length (onAxis axis (segs (mkCreated 2 [leftHeavy 10 8 1 0 0 4;
                                             rightHeavy 10 8 1 0 0 4]))) <= 2)%nat.
Proof.
  apply (count_is_bounded (mkStore scenarioB_board []) 10 8).
  - by_evaluation.
  - by vm_compute.
Defined.

(** ** What an evaluation touches *)

Lemma trace_bind {A B} (m : M A) (f : A -> M B) st :
  trace ((m ≫= f) st) =
  trace (m st) ++ match result (m st) with
                  | Ret a => trace (f a (final (m st)))
                  | _ => []
                  end.
Proof.
  unfold mbind, M_bind. cbn.
  destruct (result (m st)); cbn; by rewrite ?app_nil_r.
Qed.

Lemma Forall_trace_bind {A B} (P : access -> Prop) (m : M A) (f : A -> M B) st :
  Forall P (trace (m st)) ->
  (forall a, Forall P (trace (f a (final (m st))))) ->
  Forall P (trace ((m ≫= f) st)).
Proof.
  intros Hm Hf. rewrite trace_bind. apply Forall_app. split; [done|].
  by destruct (result (m st)).
Qed.

Lemma length_trace_bind {A B} (m : M A) (f : A -> M B) st (n k : nat) :
  (length (trace (m st)) <= n)%nat ->
  (forall a, (length (trace (f a (final (m st)))) <= k)%nat) ->
  (length (trace ((m ≫= f) st)) <= n + k)%nat.
Proof.
  intros Hm Hf. rewrite trace_bind, length_app.
  destruct (result (m st)) as [a| |]; [specialize (Hf a)|..]; cbn; lia.
Qed.

Lemma scan_trace x y fuel : forall rx ry sx sy n st,
  Forall (probe_access x y) (trace (scan fuel rx ry sx sy n st)) /\
  (length (trace (scan fuel rx ry sx sy n st)) <= fuel)%nat.
Proof.
  induction fuel as [|fuel IH]; intros rx ry sx sy n st; cbn [scan].
  { split; [constructor | cbn; lia]. }
  destruct (inside rx ry) eqn:Hin; [|split; [constructor | cbn; lia]].
  split.
  - apply Forall_trace_bind; [by repeat constructor|].
    intros v. destruct (strictEq v 1); [apply IH | constructor].
  - apply (length_trace_bind _ _ _ 1 fuel); [cbn; lia|].
    intros v. destruct (strictEq v 1); [exact (proj2 (IH _ _ _ _ _ _)) | cbn; lia].
Qed.

Lemma forEachAxis_trace ex x y dirs : forall axis segs st,
  Forall (probe_access x y)
         (trace (forEachAxis (axisStep ex x y) dirs axis segs st)) /\
  (length (trace (forEachAxis (axisStep ex x y) dirs axis segs st))
   <= 2 * scanFuel * length dirs)%nat.
Proof.
  induction dirs as [|[dx dy] rest IH]; intros axis segs st; cbn [forEachAxis].
  { split; [constructor | cbn; lia]. }
  assert (Hstep : forall st',
    Forall (probe_access x y) (trace (axisStep ex x y (dx, dy) axis segs st')) /\
    (length (trace (axisStep ex x y (dx, dy) axis segs st')) <= 2 * scanFuel)%nat).
  { intros st'. unfold axisStep. split.
    - apply Forall_trace_bind; [apply scan_trace|]. intros l.
      apply Forall_trace_bind; [apply scan_trace | constructor].
    - replace (2 * scanFuel)%nat with (scanFuel + (scanFuel + 0))%nat by lia.
      apply length_trace_bind; [exact (proj2 (scan_trace x y _ _ _ _ _ _ _))|].
      intros l.
      apply length_trace_bind; [exact (proj2 (scan_trace x y _ _ _ _ _ _ _))|].
      intros r. cbn. lia. }
  split.
  - apply Forall_trace_bind; [apply Hstep | intros; apply IH].
  - replace (2 * scanFuel * length ((dx, dy) :: rest))%nat
      with (2 * scanFuel + 2 * scanFuel * length rest)%nat by (cbn [length]; lia).
    apply length_trace_bind; [exact (proj2 (Hstep _))|].
    intros segs'. exact (proj2 (IH _ _ _)).
Qed.

(** X5. Whatever the board and the ledger are, an evaluation at [(x, y)]
    writes to no cell but [(x, y)] and reads no cell off the grid, and it
    makes at most [3 + 8 N] accesses to the board. *)
Theorem evaluation_touches_little st x y :
  Forall (probe_access x y) (trace (linesCreatedIfPlaced x y st)) /\
  (length (trace (linesCreatedIfPlaced x y st)) <= 3 + 8 * Z.to_nat N)%nat.
Proof.
  unfold linesCreatedIfPlaced.
  destruct (inside x y) eqn:Hin; cbn [negb]; [|split; [constructor | cbn; lia]].
  split.
  - apply Forall_trace_bind; [by repeat constructor|]. intros v.
    destruct (strictNe v 0); [constructor|].
    apply Forall_trace_bind.
    { unfold writeCell. destruct (setCell _ _ _ _); by repeat constructor. }
    intros _. apply Forall_trace_bind; [constructor|]. intros ex.
    apply Forall_trace_bind; [apply forEachAxis_trace|]. intros segs.
    apply Forall_trace_bind; [|constructor].
    unfold writeCell. destruct (setCell _ _ _ _); by repeat constructor.
  - replace (3 + 8 * Z.to_nat N)%nat
      with (1 + (1 + (0 + (2 * scanFuel * length DIRS + (1 + 0)))))%nat
      by reflexivity.
    apply length_trace_bind; [cbn; lia|]. intros v.
    destruct (strictNe v 0); [cbn; lia|].
    apply length_trace_bind.
    { unfold writeCell. destruct (setCell _ _ _ _); cbn; lia. }
    intros _. apply length_trace_bind; [cbn; lia|]. intros ex.
    apply length_trace_bind; [exact (proj2 (forEachAxis_trace _ _ _ _ _ _ _))|].
    intros segs.
    apply length_trace_bind; [|intros; cbn; lia].
    unfold writeCell. destruct (setCell _ _ _ _); cbn; lia.
Qed.

(** ** The overlap test *)

(** X6. [overlapsExisting] answers true exactly when some ledger entry
    with the candidate's axis number has a cell that is also a cell of
    the candidate; entries of other axes and the order of the ledger play
    no part. *)
Theorem overlap_is_same_axis_sharing exs cand :
  (overlapsExisting exs cand = true <->
   exists ex c, In ex exs /\ axisId ex = axisId cand /\
                In c (cells ex) /\ In c (cells cand)) /\
  overlapsExisting exs cand = overlapsExisting (onAxis (axisId cand) exs) cand /\
  forall exs', overlapsExisting (exs ++ exs') cand =
               overlapsExisting exs cand || overlapsExisting exs' cand.
Proof.
  split; [|split].
  - unfold overlapsExisting. rewrite existsb_exists. split.
    + intros (ex & Hex & [Hax%Z.eqb_eq (c & H1 & H2)%sharesCell_true]%andb_true_iff).
      eauto 6.
    + intros (ex & c & Hex & Hax & H1 & H2). exists ex. split; [done|].
      apply andb_true_iff. split; [by apply Z.eqb_eq|].
      apply sharesCell_true. eauto.
  - unfold overlapsExisting, onAxis. induction exs as [|ex exs IH]; [done|].
    cbn [existsb List.filter]. destruct (Z.eqb_spec (axisId ex) (axisId cand)).
    + cbn [existsb]. rewrite IH. destruct (Z.eqb_spec (axisId ex) (axisId cand)); done.
    + cbn. apply IH.
  - intros exs'. unfold overlapsExisting. apply existsb_app.
Qed.

(** ** Seeding a board that is not empty *)

Lemma seedCross_any length b :
  is_board b ->
  exists b', seedCross length b = Ret b' /\ is_board b' /\
    forall x y, inside x y = true ->
      getCell b' x y =
        if inCross length x y then Ret (JNum 1) else getCell b x y.
Proof.
  intros Hb. unfold seedCross. rewrite clone_id.
  set (hl := (length - 1) / 2). set (hr := length - 1 - hl).
  set (steps := seqZ (- hl) (hr + hl + 1)).
  destruct (seedRow_spec CENTER steps b Hb) as (b1 & E1 & Hb1 & G1).
  destruct (seedRow_spec (CENTER + 1) steps _ Hb1) as (b2 & E2 & Hb2 & G2).
  destruct (seedColumn_spec CENTER steps _ Hb2) as (b3 & E3 & Hb3 & G3).
  destruct (seedColumn_spec (CENTER + 1) steps _ Hb3) as (b4 & E4 & Hb4 & G4).
  exists b4. split; [|split; [done|]].
  { rewrite E1. cbn. rewrite E2. cbn. rewrite E3. cbn. exact E4. }
  intros x y Hin. rewrite (G4 x y Hin), (G3 x y Hin), (G2 x y Hin), (G1 x y Hin).
  unfold steps. rewrite !existsb_steps. unfold inCross. fold hl hr.
  replace (CENTER + - hl) with (CENTER - hl) by lia.
  replace (CENTER - hl + (hr + hl + 1) - 1) with (CENTER + hr) by lia.
  destruct (y =? CENTER), (y =? CENTER + 1), (x =? CENTER), (x =? CENTER + 1),
    (CENTER - hl <=? x), (x <=? CENTER + hr),
    (CENTER - hl <=? y), (y <=? CENTER + hr); reflexivity.
Qed.

(** X7. On any board, not only the empty one, [seedInitialCross] returns
    a board on which the cells of the cross hold 1 and every other cell
    is as it was: seeding adds dots and removes none. *)
Theorem seeding_only_adds b :
  is_board b ->
  exists b', seedInitialCross b = Ret b' /\ is_board b' /\
    forall x y, inside x y = true ->
      getCell b' x y = if crossCell x y then Ret (JNum 1) else getCell b x y.
Proof.
  intros Hb. destruct (seedCross_any 8 b Hb) as (b' & E & Hb' & G).
  exists b'. do 2 (split; [done|]). intros x y Hin. by rewrite (G x y Hin).
Qed.

Lemma seeding_only_adds_witness :
  exists b', seedInitialCross scenarioA_board = Ret b' /\ is_board b' /\
    forall x y, inside x y = true ->
      getCell b' x y =
        if crossCell x y then Ret (JNum 1) else getCell scenarioA_board x y.
Proof.
  apply (seeding_only_adds scenarioA_board). by_evaluation.
Defined.

(** * Further properties of the game *)

(** ** One render *)

Lemma renderEffect_cases s :
  is_board (board s) ->
  exists found,
    result (findAnyLegalMove (storeOf s)) = Ret found /\
    fst (renderEffect s) =
      if bool_decide (effectDep s = Some found) then s
      else mkState (board s) (score s) (moves s)
                   (if found then gameOver s else true)
                   (message s) (segments s) (Some found).
Proof.
  intros Hb. unfold renderEffect.
  destruct (findAnyLegalMove_evals (storeOf s)) as (found & [Hf Hr] & _);
    [auto with board|].
  exists found. split; [done|]. rewrite Hf, Hr, withStore_storeOf.
  by destruct (bool_decide _).
Qed.

(** A render brings the flags in step, provided the flag is not set
    while a legal move exists. *)
Lemma renderEffect_synced s :
  is_board (board s) ->
  (forall found, result (findAnyLegalMove (storeOf s)) = Ret found ->
     (effectDep s = Some found -> gameOver s = negb found) /\
     (found = true -> gameOver s = false)) ->
  synced (fst (renderEffect s)).
Proof.
  intros Hb Hflag. destruct (renderEffect_cases s Hb) as (found & Hr & ->).
  destruct (Hflag found Hr) as [Hdep Hlegal].
  case_bool_decide as Hd.
  - split; [done|]. exists found. auto.
  - split; [done|]. exists found. cbn. split; [done|]. split; [done|].
    destruct found; [by apply Hlegal | done].
Qed.

(** A render of a state whose flags are in step changes nothing. *)
Lemma renderEffect_idle s : synced s -> fst (renderEffect s) = s.
Proof.
  intros (Hb & found & Hr & Hdep & _).
  destruct (renderEffect_cases s Hb) as (found' & Hr' & ->).
  assert (found' = found) as -> by congruence. by rewrite bool_decide_eq_true_2.
Qed.

Lemma synced_mount : synced mount.
Proof.
  split; [auto with board|]. exists true. by vm_compute.
Qed.

Lemma seed_is_mount_board : seedInitialCross makeEmptyBoard = Ret (board mount).
Proof. by vm_compute. Qed.

Lemma findAny_seeded :
  result (findAnyLegalMove (mkStore (board mount) [])) = Ret true.
Proof. by vm_compute. Qed.

(** ** One click *)

(** In a state whose flags are in step the handler commits a click
    exactly when its cell is legal. *)
Lemma handleCellClick_synced s x y :
  synced s ->
  (~ legalAt (storeOf s) x y /\
   (fst (handleCellClick x y s) = s \/
    fst (handleCellClick x y s) = setMessage MsgInvalid s)) \/
  (legalAt (storeOf s) x y /\ gameOver s = false /\
   exists c next,
     result (linesCreatedIfPlaced x y (storeOf s)) = Ret c /\
     setCell (board s) x y 1 = Ret next /\ is_board next /\
     fst (handleCellClick x y s) = accepted s x y c next).
Proof.
  intros (Hb & found & Hfound & Hdep & Hover).
  pose proof (is_board_has_rows _ Hb) as Hrows.
  unfold handleCellClick. destruct (gameOver s) eqn:Hgo.
  { left. split; [|by left]. destruct found; [done|]. by apply stuck_no_legal. }
  destruct (getCell (board s) x y) as [v| |] eqn:Hv.
  2,3: left; split; [|by left]; intros (_ & Hv' & _); cbn in Hv'; congruence.
  destruct (strictNe v 0) eqn:Hne.
  { left. split; [|by left]. by apply (not_legalAt_occupied _ _ _ v). }
  apply strictNe_false in Hne as ->.
  pose proof (is_board_num_inside _ _ _ _ Hb Hv) as Hin.
  destruct (lines_evals (storeOf s) x y Hrows) as (c & Hf & Hr).
  rewrite Hf, Hr, withStore_storeOf.
  pose proof (legalAt_count (storeOf s) x y c Hin Hv (conj Hf Hr)) as Hlegal.
  destruct (Z.leb_spec (count c) 0) as [Hle|Hpos].
  { left. split; [|by right]. intros Hl%Hlegal. apply Z.ltb_lt in Hl. lia. }
  right. split; [apply Hlegal, Z.ltb_lt; lia|]. split; [done|].
  destruct (probe_undo _ _ _ Hv) as (next & Hset & _ & _).
  exists c, next. rewrite clone_id, Hset.
  do 2 (split; [done|]). split; [by apply (setCell_is_board _ x y 1 _ Hb Hin)|done].
Qed.

(** A click and the render after it. *)
Lemma dispatch_click_synced s x y :
  synced s ->
  let s' := dispatch (Click x y) s in
  synced s' /\
  ((~ legalAt (storeOf s) x y /\
    board s' = board s /\ segments s' = segments s /\
    score s' = score s /\ moves s' = moves s /\ gameOver s' = gameOver s) \/
   (legalAt (storeOf s) x y /\ gameOver s = false /\
    exists c next,
      result (linesCreatedIfPlaced x y (storeOf s)) = Ret c /\
      setCell (board s) x y 1 = Ret next /\
      board s' = next /\ segments s' = segments s ++ segs c /\
      score s' = score s + count c /\ moves s' = moves s + 1)).
Proof.
  intros Hs. pose proof Hs as (Hb & found & Hfound & Hdep & Hover).
  cbv zeta. unfold dispatch, handle.
  destruct (handleCellClick_synced s x y Hs)
    as [[Hno [->| ->]]|(Hl & Hgo & c & next & Hc & Hset & Hnext & ->)].
  - rewrite (renderEffect_idle s Hs). split; [done|]. by left.
  - assert (Hs' : synced (setMessage MsgInvalid s)).
    { split; [done|]. by exists found. }
    rewrite (renderEffect_idle _ Hs'). split; [done|]. by left.
  - destruct (renderEffect_frame (accepted s x y c next) Hnext)
      as (Eb & Es & Esc & Em).
    split.
    + apply renderEffect_synced; [done|]. intros found' _. cbn. rewrite Hgo.
      split; [|done]. intros Hd. rewrite Hdep in Hd. injection Hd as <-.
      destruct found; [done|]. cbn in Hover. congruence.
    + right. do 2 (split; [done|]). exists c, next.
      by rewrite Eb, Es, Esc, Em.
Qed.

(** ** A reset *)

Lemma dispatch_reset s :
  let s' := dispatch Reset s in
  synced s' /\ board s' = board mount /\ segments s' = [] /\
  score s' = 0 /\ moves s' = 0 /\ gameOver s' = false /\ message s' = MsgPlace.
Proof.
  cbv zeta. unfold dispatch, handle, reset, freshState.
  rewrite seed_is_mount_board. cbn [mbind outcome_bind mret outcome_ret fst].
  set (s0 := mkState (board mount) 0 0 false MsgPlace [] (effectDep s)).
  assert (Hb0 : is_board (board s0)) by apply mount_is_board.
  destruct (renderEffect_cases s0 Hb0) as (found & Hfound & E).
  assert (found = true) as ->.
  { pose proof findAny_seeded as H. unfold s0, storeOf in Hfound. cbn in Hfound.
    congruence. }
  split.
  - apply renderEffect_synced; [done|]. intros found Hf.
    assert (found = true) as ->.
    { pose proof findAny_seeded as H. unfold s0, storeOf in Hf. cbn in Hf.
      congruence. }
    split; intros _; reflexivity.
  - rewrite E. case_bool_decide; repeat split; reflexivity.
Qed.

(** ** Counting the dots *)

Lemma filter_length_insert {A} (f : A -> bool) (l : list A) (i : nat) a a' :
  l !! i = Some a ->
  (length (List.filter f (<[i:=a']> l)) + (if f a then 1 else 0)
   = length (List.filter f l) + (if f a' then 1 else 0))%nat.
Proof.
  revert i. induction l as [|h l IH]; intros [|i] Hl; try done.
  - injection Hl as ->. cbn. destruct (f a), (f a'); cbn. all: lia.
  - specialize (IH i Hl). simpl.
    destruct (f h), (f a), (f a'); simpl in *; lia.
Qed.

Lemma occupied_insert (b : Board) (i : nat) (row row' : Row) :
  b !! i = Some row ->
  (occupied (<[i:=row']> b) + length (List.filter (fun v => strictEq v 1) row)
   = occupied b + length (List.filter (fun v => strictEq v 1) row'))%nat.
Proof.
  unfold occupied. revert i. induction b as [|h b IH]; intros [|i] Hb; try done.
  - injection Hb as ->. cbn. rewrite !List.filter_app, !length_app. lia.
  - specialize (IH i Hb). simpl.
    rewrite !List.filter_app, !length_app. lia.
Qed.

(** Putting a dot on an empty cell adds one to the count. *)
Lemma occupied_setCell b x y next :
  getCell b x y = Ret (JNum 0) -> setCell b x y 1 = Ret next ->
  occupied next = S (occupied b).
Proof.
  intros (row & Hrow & Hv)%getCell_num_inv.
  rewrite (setCell_present _ _ _ _ _ _ Hrow Hv). intros [= <-].
  apply elemAt_Some in Hrow as [_ Hrow], Hv as [_ Hv].
  pose proof (occupied_insert b _ row (<[Z.to_nat x:=JNum 1]> row) Hrow) as H1.
  pose proof (filter_length_insert (fun v => strictEq v 1) row _ _ (JNum 1) Hv) as H2.
  cbn in H2. lia.
Qed.

Lemma length_concat_rows {A} (b : list (list A)) (n : nat) :
  Forall (fun row => length row = n) b -> length (concat b) = (length b * n)%nat.
Proof.
  induction 1 as [|row b Hrow _ IH]; [done|].
  cbn. rewrite length_app, IH, Hrow. lia.
Qed.

Lemma occupied_le b : is_board b -> (occupied b <= 441)%nat.
Proof.
  intros [Hlen Hrows]. unfold occupied.
  etransitivity; [apply List.filter_length_le|].
  rewrite (length_concat_rows b (Z.to_nat N) Hrows), Hlen. by vm_compute.
Qed.

(** ** What holds in every game *)

Lemma state_play_snoc evs e :
  state (play (evs ++ [e])) = dispatch e (state (play evs)).
Proof.
  unfold play. rewrite fold_left_app. cbn [fold_left].
  by destruct e.
Qed.

Lemma occupied_mount : occupied (board mount) = 28%nat.
Proof. by vm_compute. Qed.

Lemma reached_mount : reached mount.
Proof.
  split; [apply synced_mount|]. rewrite occupied_mount.
  split; [by vm_compute|]. split; [by vm_compute|]. split; [reflexivity|].
  intros w cl Hw. by vm_compute in Hw.
Qed.

Lemma reached_dispatch e s : reached s -> reached (dispatch e s).
Proof.
  intros (Hs & Hscore & (Hm0 & Hm1 & Hm8) & Hocc & Hdots). destruct e as [x y|].
  - destruct (dispatch_click_synced s x y Hs)
      as (Hs' & [(_ & Eb & Es & Esc & Em & _)
                |(Hl & _ & c & next & Hc & Hset & Eb & Es & Esc & Em)]).
    { split; [done|]. rewrite Eb, Es, Esc, Em. by repeat split. }
    destruct Hs as (Hb & _). destruct Hl as (Hin & Hv & c' & Hc' & Hpos).
    cbn [storeOf st_board] in Hv, Hc'. assert (c' = c) as -> by congruence.
    destruct (count_bounds (storeOf s) x y c Hb Hc) as (Hcount & Hc8 & _).
    split; [done|]. rewrite Eb, Es, Esc, Em.
    split; [rewrite length_app; lia|]. split; [lia|]. split.
    { rewrite (occupied_setCell _ _ _ _ Hv Hset). lia. }
    intros w cl Hw Hcl.
    rewrite (getCell_setCell _ _ _ _ _ (cell_x cl) (cell_y cl) Hb Hin Hset).
    destruct ((cell_x cl =? x) && (cell_y cl =? y)) eqn:Hxy; [done|].
    apply in_app_iff in Hw as [Hw|Hw]; [by apply (Hdots w)|].
    destruct (windows_are_fives (storeOf s) x y c w Hb Hc Hw)
      as (dx & dy & _ & _ & _ & _ & _ & Hcells & _).
    destruct (Hcells cl Hcl) as [_ [->|Hdot]]; [|done].
    cbn in Hxy. by rewrite !Z.eqb_refl in Hxy.
  - destruct (dispatch_reset s) as (Hs' & Eb & Es & Esc & Em & _).
    split; [exact Hs'|]. rewrite Eb, Es, Esc, Em, occupied_mount.
    split; [reflexivity|]. split; [lia|]. split; [reflexivity|]. intros w cl [].
Qed.

Lemma reached_play evs : reached (state (play evs)).
Proof.
  induction evs as [|e evs IH] using rev_ind; [apply reached_mount|].
  rewrite state_play_snoc. by apply reached_dispatch.
Qed.

Lemma state_play_clicks evs cs x y :
  state (play (evs ++ clicks (cs ++ [(x, y)])))
  = dispatch (Click x y) (state (play (evs ++ clicks cs))).
Proof.
  unfold clicks. rewrite map_app, app_assoc. apply state_play_snoc.
Qed.

(** X8. In every game a click is committed exactly when its cell is
    legal - an empty cell of the grid whose evaluation counts at least
    one window.  A committed click puts a dot on that cell and on no
    other, appends the returned windows to the ledger, adds their number
    to the score and one to the move counter; any other click leaves
    board, ledger, score, move counter and game-over flag as they were. *)
Theorem click_commits_iff_legal evs x y :
  let s := state (play evs) in
  let s' := state (play (evs ++ [Click x y])) in
  (legalAt (storeOf s) x y ->
   exists c,
     result (linesCreatedIfPlaced x y (storeOf s)) = Ret c /\ 0 < count c /\
     (forall x' y', getCell (board s') x' y' =
        if (x' =? x) && (y' =? y) then Ret (JNum 1)
        else getCell (board s) x' y') /\
     segments s' = segments s ++ segs c /\
     score s' = score s + count c /\ moves s' = moves s + 1) /\
  (~ legalAt (storeOf s) x y ->
   board s' = board s /\ segments s' = segments s /\
   score s' = score s /\ moves s' = moves s /\ gameOver s' = gameOver s).
Proof.
  cbv zeta. rewrite state_play_snoc.
  destruct (reached_play evs) as (Hs & _).
  destruct (dispatch_click_synced _ x y Hs)
    as (_ & [(Hno & Hsame)|(Hl & _ & c & next & Hc & Hset & Eb & Es & Esc & Em)]).
  - split; [done|]. by intros _.
  - split; [|done]. intros _. exists c. split; [done|].
    destruct Hs as (Hb & _). destruct Hl as (Hin & _ & c' & Hc' & Hpos).
    assert (c' = c) as -> by congruence. split; [done|].
    split; [|done]. intros x' y'. rewrite Eb.
    by apply (getCell_setCell _ x y 1).
Qed.

(** X9. With the game not over, a click whose row is off the board
    raises [TypeError] and a click whose row exists but whose column is
    off the board is ignored; in both cases the state is untouched. *)
Theorem click_off_the_grid s x y :
  is_board (board s) -> gameOver s = false ->
  (~ 0 <= y < N -> handleCellClick x y s = (s, TypeError)) /\
  (0 <= y < N -> ~ 0 <= x < N -> handleCellClick x y s = (s, Ret tt)).
Proof.
  intros Hb Hgo. unfold handleCellClick. rewrite Hgo. split.
  - intros Hy. unfold getCell.
    destruct (elemAt (board s) y) as [row|] eqn:Hrow; [|done].
    apply elemAt_bound in Hrow. destruct Hb as [Hlen _]. lia.
  - intros Hy Hx. unfold getCell.
    destruct (is_board_row _ y Hb Hy) as (row & -> & Hlen).
    destruct (elemAt row x) as [v|] eqn:Hv; [|done].
    apply elemAt_bound in Hv. lia.
Qed.

Lemma click_off_the_grid_witness :
  handleCellClick 3 21 mount = (mount, TypeError) /\
  handleCellClick (-1) 3 mount = (mount, Ret tt).
Proof.
  split.
  - apply (click_off_the_grid mount 3 21); [by_evaluation | reflexivity | ].
    unfold N. lia.
  - apply (click_off_the_grid mount (-1) 3); [by_evaluation | reflexivity | | ];
      unfold N; lia.
Defined.

(** X10. Without a reset a dot stays where it is: a cell that holds 1
    at some point of a game holds 1 after any further clicks. *)
Theorem dots_stay evs cs x y :
  getCell (board (state (play evs))) x y = Ret (JNum 1) ->
  getCell (board (state (play (evs ++ clicks cs)))) x y = Ret (JNum 1).
Proof.
  intros Hdot. induction cs as [|[cx cy] cs IH] using rev_ind.
  { unfold clicks. cbn. by rewrite app_nil_r. }
  rewrite state_play_clicks.
  destruct (reached_play (evs ++ clicks cs)) as (Hs & _).
  destruct (dispatch_click_synced _ cx cy Hs)
    as (_ & [(_ & -> & _)|(Hl & _ & c & next & _ & Hset & -> & _)]); [done|].
  destruct Hs as (Hb & _). destruct Hl as (Hin & _).
  rewrite (getCell_setCell _ _ _ _ _ x y Hb Hin Hset), IH.
  by destruct ((x =? cx) && (y =? cy)).
Qed.

Lemma dots_stay_witness :
  getCell (board (state (play (double_score_game ++
                                 clicks [(6, 10); (3, 3)])))) 13 12
  = Ret (JNum 1).
Proof.
  apply (dots_stay double_score_game [(6, 10); (3, 3)] 13 12). by vm_compute.
Defined.

(** X11. In every game the score is the number of windows in the ledger,
    and every committed move scored between one and eight windows: the
    move counter is at most the score and the score at most eight times
    the move counter. *)
Theorem score_counts_the_ledger evs :
  let s := state (play evs) in
  score s = Z.of_nat (length (segments s)) /\
  0 <= moves s /\ moves s <= score s /\ score s <= 8 * moves s.
Proof.
  cbv zeta. destruct (reached_play evs) as (_ & Hscore & (H0 & H1 & H8) & _).
  done.
Qed.

(** X12. In every game the board holds the 28 dots of the seed and one
    more for each committed move since the last reset; so no game has
    more than 413 moves before it must end. *)
Theorem moves_are_bounded evs :
  let s := state (play evs) in
  Z.of_nat (occupied (board s)) = 28 + moves s /\ moves s <= 413.
Proof.
  cbv zeta. destruct (reached_play evs) as ((Hb & _) & _ & _ & Hocc & _).
  split; [done|]. pose proof (occupied_le _ Hb). lia.
Qed.

(** X13. In every game each cell of each ledger window is a cell of the
    grid that holds a dot. *)
Theorem ledger_lies_on_dots evs w cl :
  In w (segments (state (play evs))) -> In cl (cells w) ->
  inside (cell_x cl) (cell_y cl) = true /\
  getCell (board (state (play evs))) (cell_x cl) (cell_y cl) = Ret (JNum 1).
Proof.
  intros Hw Hcl.
  destruct (reached_play evs) as ((Hb & _) & _ & _ & _ & Hdots).
  pose proof (Hdots w cl Hw Hcl) as Hdot.
  split; [by apply (is_board_num_inside _ _ _ 1 Hb) | done].
Qed.

Lemma ledger_lies_on_dots_witness :
  inside (cell_x (mkCell 10 12)) (cell_y (mkCell 10 12)) = true /\
  getCell (board (state (play double_score_game)))
          (cell_x (mkCell 10 12)) (cell_y (mkCell 10 12)) = Ret (JNum 1).
Proof.
  apply (ledger_lies_on_dots double_score_game (window 13 12 1 0 0 3 1)).
  - vm_compute. tauto.
  - vm_compute. tauto.
Defined.

(** X14. In every game the game-over flag is set exactly when no cell is
    legal, that is when [findAnyLegalMove] answers false on the current
    board and ledger. *)
Theorem game_over_iff_stuck evs :
  let s := state (play evs) in
  (gameOver s = true <-> result (findAnyLegalMove (storeOf s)) = Ret false) /\
  (gameOver s = true <-> ~ exists x y, legalAt (storeOf s) x y).
Proof.
  cbv zeta. destruct (reached_play evs) as ((Hb & found & Hr & _ & Hgo) & _).
  destruct (findAnyLegalMove_evals (storeOf (state (play evs)))
              (is_board_has_rows _ Hb))
    as (found' & [_ Hr'] & Hiff).
  assert (found' = found) as -> by congruence.
  rewrite Hgo, Hr. destruct found; cbn [negb].
  - split; split; try discriminate.
    intros Hno. destruct Hno. by apply Hiff.
  - split; split; try reflexivity.
    intros _ (x & y & Hl). assert (false = true) by (apply Hiff; eauto).
    discriminate.
Qed.

(** X15. A reset starts the game afresh from any state, even a finished
    one: the state after it is the state of a fresh mount, so that what
    follows a reset is the game that the same events play from the
    start. *)
Theorem reset_starts_afresh evs evs' :
  play (evs ++ Reset :: evs') = play evs'.
Proof.
  unfold play. rewrite fold_left_app. cbn [fold_left]. f_equal.
  unfold step at 1. unfold newGame. f_equal.
  destruct (dispatch_reset (state (fold_left step evs (mkGame mount []))))
    as ((_ & found & Hr & Hdep & _) & Eb & Es & Esc & Em & Ego & Emsg).
  set (s' := dispatch Reset _) in *.
  assert (found = true) as ->.
  { pose proof findAny_seeded as H. unfold storeOf in Hr. rewrite Eb, Es in Hr.
    congruence. }
  destruct s'. cbn in *. subst. by vm_compute.
Qed.

(** X16. Without a reset the ledger only grows at its end, and neither
    the score nor the move counter goes down. *)
Theorem ledger_only_grows evs cs :
  let s := state (play evs) in
  let s' := state (play (evs ++ clicks cs)) in
  (exists new, segments s' = segments s ++ new) /\
  score s <= score s' /\ moves s <= moves s'.
Proof.
  cbv zeta. induction cs as [|[cx cy] cs IH] using rev_ind.
  { unfold clicks. cbn. rewrite app_nil_r.
    split; [exists []; by rewrite app_nil_r | lia]. }
  rewrite state_play_clicks. destruct IH as ((new & Hnew) & Hsc & Hmv).
  destruct (reached_play (evs ++ clicks cs)) as (Hs & _).
  destruct (dispatch_click_synced _ cx cy Hs)
    as (_ & [(_ & _ & -> & -> & -> & _)
            |(Hl & _ & c & next & Hc & _ & _ & -> & -> & ->)]).
  - split; [by exists new | lia].
  - destruct Hl as (_ & _ & c' & Hc' & Hpos). assert (c' = c) as -> by congruence.
    split; [|lia]. exists (new ++ segs c). by rewrite Hnew, app_assoc.
Qed.

(** ** The hover preview *)

(** X17. In every game, hovering a cell of the grid returns normally and
    leaves the state as it was; the number of lines it previews is
    between 0 and 8, is positive exactly when the cell is legal, and is
    what a click on that cell then adds to the score. *)
Theorem hover_previews_the_click evs x y :
  inside x y = true ->
  let s := state (play evs) in
  exists n,
    onHover x y s = (s, Ret (mkHover x y n)) /\
    0 <= n <= 8 /\
    (0 < n <-> legalAt (storeOf s) x y) /\
    score (state (play (evs ++ [Click x y]))) = score s + n.
Proof.
  intros Hin. cbv zeta. rewrite state_play_snoc.
  destruct (reached_play evs) as (Hs & _). pose proof Hs as (Hb & found & Hf & _ & Hgo).
  pose proof (is_board_has_rows _ Hb) as Hrows.
  destruct (dispatch_click_synced _ x y Hs)
    as (_ & [(Hno & _ & _ & Hsc & _)|(Hl & Hplay & c & next & Hc & _ & _ & _ & Hsc & _)]).
  - (* the click is rejected *)
    exists 0. rewrite Hsc. split; [|split; [lia|split; [split; [lia|done]|lia]]].
    unfold onHover. destruct (has_rows_getCell _ x y Hrows Hin) as [v Hv].
    rewrite Hv. destruct (strictNe v 0) eqn:Hne; [done|].
    destruct (gameOver (state (play evs))) eqn:Hover; [done|]. cbn [orb].
    apply strictNe_false in Hne as ->.
    destruct (lines_evals (storeOf (state (play evs))) x y Hrows) as [c [Hfin Hc]].
    rewrite Hfin, Hc, withStore_storeOf.
    destruct (count_bounds (storeOf (state (play evs))) x y c Hb Hc) as (_ & Hc0 & _).
    destruct (decide (count c = 0)) as [->|Hpos]; [done|].
    destruct Hno. apply (legalAt_count (storeOf (state (play evs))) x y c Hin Hv);
      [done|]. apply Z.ltb_lt. lia.
  - (* the click is committed *)
    destruct Hl as (_ & Hv & c' & Hc' & Hpos). assert (c' = c) as -> by congruence.
    destruct (count_bounds (storeOf (state (play evs))) x y c Hb Hc) as (_ & Hc8 & _).
    exists (count c). rewrite Hsc.
    split; [|split; [lia|split; [|done]]].
    + unfold onHover. cbn [storeOf st_board] in Hv. rewrite Hv, Hplay. cbn.
      destruct (lines_evals (storeOf (state (play evs))) x y Hrows) as [c2 [Hfin Hc2]].
      by rewrite Hfin, Hc, withStore_storeOf.
    + split; [intros _|done]. split; [done|]. split; [done|]. by exists c.
Qed.

Lemma hover_previews_the_click_witness :
  exists n,
    onHover 10 6 (state (play [])) = (state (play []), Ret (mkHover 10 6 n)) /\
    0 <= n <= 8 /\
    (0 < n <-> legalAt (storeOf (state (play []))) 10 6) /\
    score (state (play ([] ++ [Click 10 6]))) = score (state (play [])) + n.
Proof. apply (hover_previews_the_click [] 10 6). reflexivity. Defined.

(** X18. On a board, hovering a row that is off the grid raises
    [TypeError] even when the game is over, where a click returns
    silently; hovering a column that is off the grid in a row of the
    grid previews 0 lines.  The state is untouched in each case. *)
Theorem hover_off_the_grid s x y :
  is_board (board s) ->
  (~ 0 <= y < N -> onHover x y s = (s, TypeError)) /\
  (0 <= y < N -> ~ 0 <= x < N -> onHover x y s = (s, Ret (mkHover x y 0))) /\
  (gameOver s = true -> handleCellClick x y s = (s, Ret tt)).
Proof.
  intros Hb. unfold onHover, handleCellClick. split; [|split].
  - intros Hy. unfold getCell.
    destruct (elemAt (board s) y) as [row|] eqn:Hrow; [|done].
    apply elemAt_bound in Hrow. destruct Hb as [Hlen _]. lia.
  - intros Hy Hx. unfold getCell.
    destruct (is_board_row _ y Hb Hy) as (row & -> & Hlen).
    destruct (elemAt row x) as [v|] eqn:Hv; [|done].
    apply elemAt_bound in Hv. lia.
  - by intros ->.
Qed.

Lemma hover_off_the_grid_witness :
  onHover 3 21 (state (play finished_game))
  = (state (play finished_game), TypeError) /\
  handleCellClick 3 21 (state (play finished_game))
  = (state (play finished_game), Ret tt).
Proof.
  destruct (hover_off_the_grid (state (play finished_game)) 3 21)
    as (H1 & _ & H3).
  - by_evaluation.
  - split; [apply H1; unfold N; lia | apply H3; by vm_compute].
Defined.

(** ** The list of legal moves *)

Lemma seqZ_sorted m n : StronglySorted Z.lt (seqZ m n).
Proof.
  unfold seqZ. generalize (Z.to_nat n) as k, 0%nat as start.
  induction k as [|k IH]; intros start; cbn; constructor; [apply IH|].
  apply List.Forall_forall. intros z (i & <- & Hi%in_seq)%in_map_iff. lia.
Qed.

Lemma sorted_app {A} (R : A -> A -> Prop) (l1 l2 : list A) :
  StronglySorted R l1 -> StronglySorted R l2 ->
  (forall a b, In a l1 -> In b l2 -> R a b) ->
  StronglySorted R (l1 ++ l2).
Proof.
  induction 1 as [|a l1 Hl1 IH Ha]; intros Hl2 Hcross; [done|].
  cbn. constructor.
  - apply IH; [done|]. intros a' b Ha' Hb. apply Hcross; [by right | done].
  - apply Forall_app. split; [done|].
    apply List.Forall_forall. intros b Hb. apply Hcross; [by left | done].
Qed.

Lemma collectInRow_content st yy xs :
  has_rows (st_board st) -> 0 <= yy < N ->
  (forall x, In x xs -> 0 <= x < N) -> StronglySorted Z.lt xs ->
  forall out, exists new,
    evals (collectInRow yy xs out) st st (out ++ new) /\
    (forall m, In m new <-> In (mv_x m) xs /\ mv_y m = yy /\ listed st m) /\
    StronglySorted before new.
Proof.
  intros Hrows Hy. induction xs as [|x xs IH]; intros Hxs Hsort out.
  - exists []. rewrite app_nil_r. split; [apply evals_ret|].
    split; [|constructor]. intros m. split; [done | by intros [[] _]].
  - assert (Hin : inside x yy = true).
    { apply inside_spec. split; [apply Hxs; by left | done]. }
    assert (Hxs' : forall x, In x xs -> 0 <= x < N) by (intros; apply Hxs; by right).
    apply StronglySorted_inv in Hsort as [Hsort Hlt].
    rewrite List.Forall_forall in Hlt.
    destruct (has_rows_getCell _ _ _ Hrows Hin) as [v Hv].
    cbn [collectInRow]. destruct (strictNe v 0) eqn:Hne.
    + destruct (IH Hxs' Hsort out) as (new & Hev & Hmem & Hnew). exists new.
      split; [|split; [|done]].
      * eapply evals_bind; [by apply evals_readCell|]. by rewrite Hne.
      * intros m. rewrite Hmem. split; [intros (? & ? & ?); split; [by right|done]|].
        intros ([Hx|Hx] & Hy' & Hl); [|done].
        destruct Hl as [Hl _]. rewrite <- Hx, Hy' in Hl.
        by destruct (not_legalAt_occupied _ _ _ _ Hv Hne).
    + apply strictNe_false in Hne as Hv0. subst v.
      destruct (lines_evals st x yy Hrows) as [c Hc].
      pose proof (legalAt_count _ _ _ _ Hin Hv Hc) as Hlegal.
      destruct (IH Hxs' Hsort (if 0 <? count c
                               then out ++ [mkLegalMove x yy (count c)] else out))
        as (new & Hev & Hmem & Hnew).
      destruct (0 <? count c) eqn:Hpos.
      * exists (mkLegalMove x yy (count c) :: new). split; [|split].
        -- eapply evals_bind; [by apply evals_readCell|]. rewrite Hne.
           eapply evals_bind; [exact Hc|]. rewrite Hpos.
           by rewrite <- app_assoc in Hev.
        -- intros m. cbn [In]. rewrite Hmem. split.
           ++ intros [<-|(? & ? & ?)]; [|split; [by right | done]].
              cbn. split; [by left|]. split; [done|].
              split; [by apply Hlegal|]. exists c. split; [apply Hc | done].
           ++ intros ([Hx|Hx] & Hy' & Hl); [left | by right].
              destruct Hl as (_ & c' & Hc' & Hn). destruct Hc as [_ Hc].
              rewrite <- Hx, Hy' in Hc'. assert (c' = c) as -> by congruence.
              destruct m as [mx my mn]. cbn in *. by subst.
        -- constructor; [done|]. apply List.Forall_forall.
           intros m (Hx & Hy' & _)%Hmem. right. cbn.
           split; [done|]. by apply Hlt.
      * exists new. split; [|split; [|done]].
        -- eapply evals_bind; [by apply evals_readCell|]. rewrite Hne.
           eapply evals_bind; [exact Hc|]. by rewrite Hpos.
        -- intros m. rewrite Hmem.
           split; [intros (? & ? & ?); split; [by right|done]|].
           intros ([Hx|Hx] & Hy' & Hl); [|done].
           destruct Hl as [Hl _]. rewrite <- Hx, Hy' in Hl.
           apply Hlegal in Hl. congruence.
Qed.

Lemma collectInRows_content st ys :
  has_rows (st_board st) ->
  (forall y, In y ys -> 0 <= y < N) -> StronglySorted Z.lt ys ->
  forall out, exists new,
    evals (collectInRows ys out) st st (out ++ new) /\
    (forall m, In m new <-> In (mv_y m) ys /\ listed st m) /\
    StronglySorted before new.
Proof.
  intros Hrows. induction ys as [|y ys IH]; intros Hys Hsort out.
  - exists []. rewrite app_nil_r. split; [apply evals_ret|].
    split; [|constructor]. intros m. split; [done | by intros [[] _]].
  - apply StronglySorted_inv in Hsort as [Hsort Hlt].
    rewrite List.Forall_forall in Hlt.
    destruct (collectInRow_content st y (seqZ 0 N) Hrows) with (out := out)
      as (new1 & Hrow & Hmem1 & Hnew1).
    { apply Hys. by left. }
    { intros x Hx%list_elem_of_In%elem_of_seqZ. lia. }
    { apply seqZ_sorted. }
    destruct (IH (fun y' H => Hys y' (or_intror H)) Hsort (out ++ new1))
      as (new2 & Hev & Hmem2 & Hnew2).
    exists (new1 ++ new2). split; [|split].
    + cbn [collectInRows]. eapply evals_bind; [exact Hrow|].
      by rewrite <- app_assoc in Hev.
    + intros m. rewrite in_app_iff, Hmem1, Hmem2. cbn [In]. split.
      * intros [(_ & Hy & Hl)|(Hy & Hl)]; (split; [|done]); [by left | by right].
      * intros ([Hy|Hy] & Hl); [left | by right].
        split; [|done]. apply list_elem_of_In, elem_of_seqZ.
        destruct Hl as [[[Hx _]%inside_spec _] _]. lia.
    + apply sorted_app; [done..|].
      intros a b (_ & Ha & _)%Hmem1 (Hb & _)%Hmem2. left.
      rewrite Ha. by apply Hlt.
Qed.

(** X19. On every board and with every ledger, [getAllLegalMoves]
    returns and leaves the board and the ledger as they were; the list
    holds an entry [{x, y, count}] exactly for the legal cells, with
    the count their evaluation returns, and lists them row by row and
    within a row column by column, so no cell is listed twice. *)
Theorem legal_moves_are_listed st :
  is_board (st_board st) ->
  exists moves,
    final (getAllLegalMoves st) = st /\
    result (getAllLegalMoves st) = Ret moves /\
    (forall m, In m moves <->
       legalAt st (mv_x m) (mv_y m) /\
       exists c, result (linesCreatedIfPlaced (mv_x m) (mv_y m) st) = Ret c /\
                 mv_count m = count c) /\
    StronglySorted before moves /\ NoDup moves.
Proof.
  intros Hrows%is_board_has_rows.
  destruct (collectInRows_content st (seqZ 0 N) Hrows) with (out := @nil LegalMove)
    as (moves & [Hfin Hres] & Hmem & Hsort).
  { intros y Hy%list_elem_of_In%elem_of_seqZ. lia. }
  { apply seqZ_sorted. }
  exists moves. split; [done|]. split; [done|]. split; [|split; [done|]].
  - intros m. rewrite Hmem. unfold listed. split; [tauto|].
    intros Hl. split; [|done]. apply list_elem_of_In, elem_of_seqZ.
    destruct Hl as [[[_ Hy]%inside_spec _] _]. lia.
  - clear Hfin Hres Hmem. induction Hsort as [|m moves _ IH Hm]; constructor; [|done].
    intros Hin%list_elem_of_In. rewrite List.Forall_forall in Hm.
    apply Hm in Hin. unfold before in Hin. lia.
Qed.

Lemma legal_moves_are_listed_witness :
  exists moves,
    final (getAllLegalMoves (mkStore scenarioA_board [])) = mkStore scenarioA_board [] /\
    result (getAllLegalMoves (mkStore scenarioA_board [])) = Ret moves /\
    (forall m, In m moves <->
       legalAt (mkStore scenarioA_board []) (mv_x m) (mv_y m) /\
       exists c, result (linesCreatedIfPlaced (mv_x m) (mv_y m)
                           (mkStore scenarioA_board [])) = Ret c /\
                 mv_count m = count c) /\
    StronglySorted before moves /\ NoDup moves.
Proof.
  apply (legal_moves_are_listed (mkStore scenarioA_board [])). by_evaluation.
Defined.

(** ** The one-time reveal *)

(** X20. In every game that is not over, the first reveal returns
    normally, leaves the game state as it was and marks the reveal as
    used; the list it stores has an entry for exactly the legal cells
    and is never empty, so the message is always the count of revealed
    spots and never the one for no legal moves. *)
Theorem reveal_finds_legal_cells evs r :
  let s := state (play evs) in
  revealUsed r = false -> gameOver s = false ->
  exists moves,
    revealOnce s r
    = (s, mkReveal true moves, Ret (Some (Revealed (Z.of_nat (length moves))))) /\
    moves <> [] /\
    (forall x y, legalAt (storeOf s) x y <-> exists n, In (mkLegalMove x y n) moves).
Proof.
  cbv zeta. intros Hused Hplay.
  destruct (reached_play evs) as ((Hb & found & Hf & _ & Hgo) & _).
  set (s := state (play evs)) in *. pose proof (is_board_has_rows _ Hb) as Hrows.
  destruct (collectInRows_content (storeOf s) (seqZ 0 N) Hrows)
    with (out := @nil LegalMove) as (moves & [Hfin Hres] & Hmem & _).
  { intros y Hy%list_elem_of_In%elem_of_seqZ. lia. }
  { apply seqZ_sorted. }
  cbn [app] in Hfin, Hres. fold getAllLegalMoves in Hfin, Hres.
  assert (Hlegal : forall x y, legalAt (storeOf s) x y <->
                               exists n, In (mkLegalMove x y n) moves).
  { intros x y. split.
    - intros Hl. destruct (Hl) as (Hin & _ & c & Hc & _). exists (count c).
      apply Hmem. cbn. split; [|split; [done | by exists c]].
      apply list_elem_of_In, elem_of_seqZ. apply inside_spec in Hin. lia.
    - intros (n & (_ & Hl & _)%Hmem). exact Hl. }
  assert (Hne : moves <> []).
  { destruct (findAnyLegalMove_evals (storeOf s) Hrows) as (found' & [_ Hf'] & Hiff).
    assert (found' = found) as -> by congruence.
    destruct found; [|by rewrite Hplay in Hgo].
    destruct (proj1 Hiff eq_refl) as (x & y & Hl).
    apply Hlegal in Hl as (n & Hn). by destruct moves. }
  exists moves. split; [|done].
  unfold revealOnce. rewrite Hused, Hplay. cbn [orb].
  rewrite Hfin, Hres, withStore_storeOf.
  destruct moves as [|m moves]; [done|]. reflexivity.
Qed.

Lemma reveal_finds_legal_cells_witness :
  exists moves,
    revealOnce (state (play [])) (mkReveal false [])
    = (state (play []), mkReveal true moves,
       Ret (Some (Revealed (Z.of_nat (length moves))))) /\
    moves <> [] /\
    (forall x y, legalAt (storeOf (state (play []))) x y <->
                 exists n, In (mkLegalMove x y n) moves).
Proof.
  apply (reveal_finds_legal_cells [] (mkReveal false [])); reflexivity.
Defined.

(** ** What the component keeps in [localStorage] *)

Example parseInt_examples :
  parseInt "42" = Some (Int 42) /\ parseInt "  -7px" = Some (Int (-7)) /\
  parseInt "007" = Some (Int 7) /\ parseInt "1e3" = Some (Int 1) /\
  parseInt "abc" = Some NaN /\ parseInt "- 5" = Some NaN /\
  parseInt "+" = Some NaN /\ parseInt "" = Some NaN.
Proof. repeat split; reflexivity. Qed.

Lemma digits_ascii d :
  forallb (fun a => (N_of_ascii a <? 128)%N)
          (list_ascii_of_string (NilEmpty.string_of_uint d)) = true.
Proof. induction d; cbn; done. Qed.

Lemma digits_trimStart d :
  trimStart (NilEmpty.string_of_uint d) = NilEmpty.string_of_uint d.
Proof. by destruct d. Qed.

Lemma digits_signOf d :
  signOf (NilEmpty.string_of_uint d) = (false, NilEmpty.string_of_uint d).
Proof. by destruct d. Qed.

Lemma digits_digitPrefix d : digitPrefix (NilEmpty.string_of_uint d) = d.
Proof. induction d; cbn; by rewrite ?IHd. Qed.

(** [parseInt(String(n), 10)] is [n], for a natural number a double
    holds exactly. *)
Lemma parseInt_String n :
  0 <= n < 2 ^ 53 ->
  string_of_Z n <> ""%string /\ parseInt (string_of_Z n) = Some (Int n).
Proof.
  intros Hn. destruct n as [|p|p]; [done| |lia].
  unfold string_of_Z. cbn [Z.to_int NilZero.string_of_int].
  pose proof (Unsigned.to_uint_nonnil p) as Hnil.
  pose proof (Unsigned.of_to p) as Hp.
  set (d := Pos.to_uint p) in *.
  assert (Hz : Z.of_uint d = Z.pos p) by (unfold Z.of_uint; by rewrite Hp).
  assert (NilZero.string_of_uint d = NilEmpty.string_of_uint d) as ->
    by (by destruct d).
  split; [by destruct d|].
  unfold parseInt.
  rewrite digits_ascii, digits_trimStart, digits_signOf. cbv beta iota.
  rewrite digits_digitPrefix.
  destruct d; [done|..]; cbv zeta; rewrite Hz;
    (destruct (Z.ltb_spec (Z.pos p) (2 ^ 53)) as [_|]; [done|lia]).
Qed.

Lemma score_is_small s : reached s -> 0 <= score s < 2 ^ 53.
Proof.
  intros ((Hb & _) & _ & (H0 & H1 & H8) & Hocc & _).
  pose proof (occupied_le _ Hb). lia.
Qed.

Lemma initHighScore_insert ls k v :
  k <> "fdl_highscore"%string -> initHighScore (<[k:=v]> ls) = initHighScore ls.
Proof. intros Hk. unfold initHighScore. by rewrite lookup_insert_ne. Qed.

Lemma initFlag_stored ls k (b : bool) :
  ls !! k = Some (if b then "1"%string else "0"%string) -> initFlag k ls = b.
Proof. intros Hk. unfold initFlag. rewrite Hk. by destruct b. Qed.

(** The effect on the high score leaves the storage in step with the
    hook. *)
Lemma highScoreEffect_spec a :
  reached (game a) -> initHighScore (localStorage a) = Some (highScore a) ->
  let a' := highScoreEffect a in
  game a' = game a /\ dark a' = dark a /\ muted a' = muted a /\
  initHighScore (localStorage a') = Some (highScore a') /\
  gtNum (score (game a)) (highScore a') = false /\
  (forall k, k <> "fdl_highscore"%string ->
     localStorage a' !! k = localStorage a !! k).
Proof.
  intros Hr Hinit. cbv zeta. unfold highScoreEffect.
  destruct (gtNum (score (game a)) (highScore a)) eqn:Hgt; [|done].
  cbn [game dark muted highScore localStorage].
  destruct (parseInt_String (score (game a)) (score_is_small _ Hr)) as [Hne Hparse].
  do 3 (split; [done|]). split; [|split].
  - unfold initHighScore. rewrite lookup_insert_eq.
    destruct (String.eqb_spec (string_of_Z (score (game a))) ""); done.
  - cbn. apply Z.ltb_irrefl.
  - intros k Hk. by rewrite lookup_insert_ne.
Qed.

Lemma settled_mountApp ls a : mountApp ls = Some a -> settled a.
Proof.
  unfold mountApp. destruct (initHighScore ls) as [h|] eqn:Hh; [|done].
  cbn [mbind option_bind]. intros [= <-].
  set (a0 := mkApp mount h _ _ ls).
  destruct (highScoreEffect_spec a0 reached_mount Hh)
    as (Eg & Ed & Em & Hinit & Hgt & Hkeys).
  unfold settled, mutedEffect, darkEffect.
  cbn [game highScore dark muted localStorage]. rewrite Eg.
  split; [apply reached_mount|]. split; [by rewrite !initHighScore_insert|].
  split; [done|]. split; [by rewrite lookup_insert_ne, lookup_insert_eq|].
  by rewrite lookup_insert_eq.
Qed.

Lemma settled_act a x : settled a -> settled (act a x).
Proof.
  intros (Hr & Hinit & Hgt & Hd & Hm). destruct x as [e| |]; cbn [act].
  - set (a0 := mkApp (dispatch e (game a)) _ _ _ _).
    destruct (highScoreEffect_spec a0 (reached_dispatch e _ Hr) Hinit)
      as (Eg & Ed & Em & Hinit' & Hgt' & Hkeys).
    unfold settled. rewrite Eg, Ed, Em, !Hkeys by done.
    split; [by apply reached_dispatch|]. by do 3 (split; [done|]).
  - unfold settled, darkEffect. cbn [game highScore dark muted localStorage].
    split; [done|]. split; [by rewrite initHighScore_insert|]. split; [done|].
    split; [by rewrite lookup_insert_eq | by rewrite lookup_insert_ne].
  - unfold settled, mutedEffect. cbn [game highScore dark muted localStorage].
    split; [done|]. split; [by rewrite initHighScore_insert|]. split; [done|].
    split; [by rewrite lookup_insert_ne | by rewrite lookup_insert_eq].
Qed.

Lemma settled_fold xs : forall a, settled a -> settled (fold_left act xs a).
Proof.
  induction xs as [|x xs IH]; intros a Ha; [done|].
  cbn [fold_left]. by apply IH, settled_act.
Qed.

Lemma settled_session ls xs a : session ls xs = Some a -> settled a.
Proof.
  unfold session. destruct (mountApp ls) as [a0|] eqn:Hm; [|done].
  cbn [mbind option_bind]. intros [= <-]. by apply settled_fold, (settled_mountApp ls).
Qed.

Lemma score_mount : score mount = 0.
Proof. by vm_compute. Qed.

(** X21. What a session leaves in the storage is what its hooks hold:
    loading the page again from that storage starts with the same high
    score, the same dark switch and the same mute switch, and writes
    nothing new. *)
Theorem settings_survive_reload ls xs a :
  session ls xs = Some a ->
  mountApp (localStorage a)
  = Some (mkApp mount (highScore a) (dark a) (muted a) (localStorage a)).
Proof.
  intros (Hr & Hinit & Hgt & Hd & Hm)%settled_session.
  unfold mountApp. rewrite Hinit. cbn [mbind option_bind].
  rewrite (initFlag_stored _ _ _ Hd), (initFlag_stored _ _ _ Hm).
  assert (gtNum 0 (highScore a) = false) as Hgt0.
  { destruct (highScore a) as [|h]; [done|]. cbn in *.
    pose proof (score_is_small _ Hr). lia. }
  unfold highScoreEffect. cbn [game highScore]. rewrite score_mount, Hgt0.
  unfold darkEffect, mutedEffect. cbn [game highScore dark muted localStorage].
  by rewrite (insert_id _ _ _ Hd), (insert_id _ _ _ Hm).
Qed.

Lemma settings_survive_reload_witness :
  exists a,
    session ∅ [Play (Click 10 6); ToggleDark; Play Reset] = Some a /\
    highScore a = Int 1 /\ dark a = true /\
    mountApp (localStorage a)
    = Some (mkApp mount (highScore a) (dark a) (muted a) (localStorage a)).
Proof.
  eexists. split; [reflexivity|]. split; [by vm_compute|]. split; [by vm_compute|].
  apply (settings_survive_reload ∅ [Play (Click 10 6); ToggleDark; Play Reset]).
  reflexivity.
Defined.

Lemma highScoreEffect_cases a :
  (highScoreEffect a = a /\ gtNum (score (game a)) (highScore a) = false) \/
  (gtNum (score (game a)) (highScore a) = true /\
   game (highScoreEffect a) = game a /\
   highScore (highScoreEffect a) = Int (score (game a))).
Proof.
  unfold highScoreEffect.
  destruct (gtNum (score (game a)) (highScore a)); [by right | by left].
Qed.

Lemma act_highScore a x :
  highScore (act a x) = highScore a \/
  (gtNum (score (game (act a x))) (highScore a) = true /\
   highScore (act a x) = Int (score (game (act a x)))).
Proof.
  destruct x as [e| |]; cbn [act]; [|by left..].
  set (a0 := mkApp (dispatch e (game a)) _ _ _ _).
  destruct (highScoreEffect_cases a0) as [[-> _]|(Hgt & -> & ->)];
    [by left | by right].
Qed.

Lemma highScore_grows xs : forall a h,
  highScore a = Int h ->
  exists h', highScore (fold_left act xs a) = Int h' /\ h <= h'.
Proof.
  induction xs as [|x xs IH]; intros a h Hh; [exists h; split; [done|lia]|].
  cbn [fold_left].
  destruct (act_highScore a x) as [E|[Hgt E]].
  - apply IH. by rewrite E.
  - rewrite Hh in Hgt. cbn in Hgt. apply Z.ltb_lt in Hgt.
    destruct (IH _ _ E) as (h' & Hh' & Hle). exists h'. split; [done|lia].
Qed.

Lemma session_snoc ls xs x :
  session ls (xs ++ [x]) = (a ← session ls xs; Some (act a x)).
Proof.
  unfold session. destruct (mountApp ls) as [a0|]; [|done].
  cbn [mbind option_bind]. by rewrite fold_left_app.
Qed.

Lemma highScore_attained ls xs : forall a h,
  session ls xs = Some a -> highScore a = Int h ->
  initHighScore ls = Some (Int h) \/
  exists xs1 xs2 a1,
    xs = xs1 ++ xs2 /\ session ls xs1 = Some a1 /\ score (game a1) = h.
Proof.
  induction xs as [|x xs IH] using rev_ind; intros a h Ha Hh.
  - pose proof Ha as Ha'. unfold session, mountApp in Ha'.
    destruct (initHighScore ls) as [h0|] eqn:Hinit; [|done].
    cbn [mbind option_bind fold_left] in Ha'. injection Ha' as <-.
    unfold mutedEffect, darkEffect in Hh. cbn [highScore] in Hh.
    set (a0 := mkApp mount h0 _ _ ls) in *.
    destruct (highScoreEffect_cases a0) as [[E _]|(_ & Eg & E)].
    + left. rewrite E in Hh. cbn [a0 highScore] in Hh. rewrite Hh. reflexivity.
    + right. exists [], [], (mutedEffect (darkEffect (highScoreEffect a0))).
      split; [done|]. split; [exact Ha|].
      unfold mutedEffect, darkEffect. cbn [game]. rewrite Eg.
      clearbody a0. congruence.
  - rewrite session_snoc in Ha.
    destruct (session ls xs) as [a1|] eqn:Ha1; [|done].
    cbn [mbind option_bind] in Ha. injection Ha as <-.
    destruct (act_highScore a1 x) as [E|[_ E]].
    + rewrite E in Hh. destruct (IH a1 h eq_refl Hh) as [?|(xs1 & xs2 & a2 & -> & ? & ?)];
        [by left|]. right. exists xs1, (xs2 ++ [x]), a2. by rewrite app_assoc.
    + right. exists (xs ++ [x]), [], (act a1 x). rewrite app_nil_r.
      split; [done|]. split; [by rewrite session_snoc, Ha1|].
      congruence.
Qed.

(** X22. When the high score of a session is a number, it is at least
    the current score, it never goes down whatever is done next - a
    reset included - and it is the value read from the storage at the
    start or the score the game had at some point of the session. *)
Theorem high_score_is_the_best ls xs a h :
  session ls xs = Some a -> highScore a = Int h ->
  score (game a) <= h /\
  (forall xs', exists h',
     highScore (fold_left act xs' a) = Int h' /\ h <= h') /\
  (initHighScore ls = Some (Int h) \/
   exists xs1 xs2 a1,
     xs = xs1 ++ xs2 /\ session ls xs1 = Some a1 /\ score (game a1) = h).
Proof.
  intros Ha Hh. split; [|split].
  - apply settled_session in Ha as (_ & _ & Hgt & _).
    rewrite Hh in Hgt. cbn in Hgt. by apply Z.ltb_ge.
  - intros xs'. by apply highScore_grows.
  - by apply (highScore_attained ls xs a).
Qed.

Lemma high_score_is_the_best_witness :
  exists a,
    session ∅ [Play (Click 10 6); Play Reset] = Some a /\
    score (game a) <= 1 /\
    (forall xs', exists h',
       highScore (fold_left act xs' a) = Int h' /\ 1 <= h') /\
    (initHighScore ∅ = Some (Int 1) \/
     exists xs1 xs2 a1,
       [Play (Click 10 6); Play Reset] = xs1 ++ xs2 /\
       session ∅ xs1 = Some a1 /\ score (game a1) = 1).
Proof.
  eexists. split; [reflexivity|].
  apply (high_score_is_the_best ∅ [Play (Click 10 6); Play Reset]);
    [reflexivity | by vm_compute].
Defined.

(** X23. When the stored high score does not start with a number,
    the high score is [NaN] for the whole session, whatever is scored,
    and the stored value is never replaced. *)
Theorem unreadable_high_score_sticks ls xs :
  initHighScore ls = Some NaN ->
  exists a,
    session ls xs = Some a /\ highScore a = NaN /\
    localStorage a !! "fdl_highscore"%string = ls !! "fdl_highscore"%string.
Proof.
  intros Hinit.
  assert (Hact : forall a x,
            highScore a = NaN -> highScore (act a x) = NaN /\
            localStorage (act a x) !! "fdl_highscore"%string
            = localStorage a !! "fdl_highscore"%string).
  { intros a x Hh. destruct x as [e| |]; cbn [act].
    - unfold highScoreEffect. cbn [game highScore]. by rewrite Hh.
    - unfold darkEffect. cbn [highScore localStorage]. by rewrite lookup_insert_ne.
    - unfold mutedEffect. cbn [highScore localStorage]. by rewrite lookup_insert_ne. }
  unfold session, mountApp. rewrite Hinit. cbn [mbind option_bind].
  unfold highScoreEffect at 1. cbn [game highScore gtNum].
  eexists. split; [reflexivity|].
  set (a0 := mutedEffect _).
  assert (H0 : highScore a0 = NaN /\
               localStorage a0 !! "fdl_highscore"%string = ls !! "fdl_highscore"%string).
  { unfold a0, mutedEffect, darkEffect. cbn [highScore localStorage].
    by rewrite !lookup_insert_ne. }
  clearbody a0. revert a0 H0.
  induction xs as [|x xs IH]; intros a0 [Hh Hls]; [done|].
  cbn [fold_left]. destruct (Hact a0 x Hh) as [Hh' Hls'].
  apply IH. split; [done | by rewrite Hls'].
Qed.

Lemma unreadable_high_score_sticks_witness :
  exists a,
    session {["fdl_highscore"%string := "abc"%string]} [Play (Click 10 6)] = Some a /\
    highScore a = NaN /\
    localStorage a !! "fdl_highscore"%string
    = ({["fdl_highscore"%string := "abc"%string]} : Storage) !! "fdl_highscore"%string.
Proof.
  apply (unreadable_high_score_sticks
           {["fdl_highscore"%string := "abc"%string]} [Play (Click 10 6)]).
  reflexivity.
Defined.
